(** * foundry-agent-mcp: the agent registry, the provisioner and the
      conversation runner

    A shallow embedding of [create-agent.py] and [run-agent.py].

    Text.  A Python [str] is modelled by [string]; a character stands for the
    code point of the same number, so the alphabet is the code points 0-255.
    Maps.  A Python [dict] is an association list in insertion order with
    unique keys ([Json.dict_set] keeps both); the mapping it denotes is a
    [gmap string string] ([Json.as_store]).
    Effects.  The registry file is an [option string] (absent, or its text);
    the remote service and the terminal are a scripted [World], and every
    print, prompt, sleep and remote call is appended to a trace. *)

From Stdlib Require Import NArith Ascii String List Lia.
From stdpp Require Import base option list strings gmap sorting.

Set Warnings "-register-all".

Local Open Scope string_scope.
Local Open Scope list_scope.
Local Open Scope N_scope.

(** ** Python text operations used by the two scripts *)

Module PyStr.

Definition dquote : ascii := "034"%char.
Definition backslash : ascii := "\"%char.
Definition newline : ascii := "010"%char.
Definition NL : string := String newline EmptyString.

Definition ord (c : ascii) : N := N_of_ascii c.
Definition chr (n : N) : ascii := ascii_of_N n.

(** [str.isspace] on one character: TAB..CR, FS..US, SPACE, NEL, NBSP. *)
Definition isspace (c : ascii) : bool :=
  let n := ord c in
  ((9 <=? n) && (n <=? 13)) || ((28 <=? n) && (n <=? 32))
  || (n =? 133) || (n =? 160).

(** [str.lower] on one character: A-Z, and the accented capitals
    U+00C0..U+00DE except the multiplication sign U+00D7. *)
Definition lower_char (c : ascii) : ascii :=
  let n := ord c in
  if ((65 <=? n) && (n <=? 90))
     || ((192 <=? n) && (n <=? 222) && negb (n =? 215))
  then chr (n + 32) else c.

Fixpoint lower (s : string) : string :=
  match s with
  | EmptyString => EmptyString
  | String c s' => String (lower_char c) (lower s')
  end.

Fixpoint lstrip (s : string) : string :=
  match s with
  | EmptyString => EmptyString
  | String c s' => if isspace c then lstrip s' else s
  end.

Fixpoint rstrip (s : string) : string :=
  match s with
  | EmptyString => EmptyString
  | String c s' =>
      match rstrip s' with
      | EmptyString => if isspace c then EmptyString else String c EmptyString
      | r => String c r
      end
  end.

(** [s.strip()] *)
Definition strip (s : string) : string := rstrip (lstrip s).

(** Every character of [s] is white space (so is the empty text). *)
Fixpoint blank (s : string) : bool :=
  match s with
  | EmptyString => true
  | String c s' => isspace c && blank s'
  end.

(** Truthiness of a [str]: [if not s] holds for the empty string only. *)
Definition truthy (s : string) : bool :=
  match s with EmptyString => false | String _ _ => true end.

(** [sub in s] for two strings: [sub] occurs in [s] as a substring. *)
Fixpoint contains (sub s : string) : bool :=
  String.prefix sub s ||
  match s with
  | EmptyString => false
  | String _ s' => contains sub s'
  end.

(** [sep.join(parts)] *)
Fixpoint join (sep : string) (parts : list string) : string :=
  match parts with
  | [] => EmptyString
  | [p] => p
  | p :: ps => p +:+ sep +:+ join sep ps
  end.

End PyStr.

(** ** The [json] library calls of the registry

    [json.dumps(obj, indent=2, sort_keys=True)] and [json.loads(text)], on the
    values a JSON text denotes.  A number keeps the literal it was read from;
    how Python prints the number a literal denotes ([repr] of the [int] or
    [float]) is not in the repository and is the parameter [number_repr]. *)

Module Json.
Import PyStr.

Inductive Value : Type :=
| JNull
| JBool (b : bool)
| JNumber (literal : string)
| JString (s : string)
| JList (items : list Value)
| JDict (entries : list (string * Value)).

Class NumberRepr := number_repr : string -> string.

(** *** dictionaries: [d[k] = v], [d[k]], [k in d] *)

Fixpoint dict_set (k : string) (v : Value) (d : list (string * Value))
  : list (string * Value) :=
  match d with
  | [] => [(k, v)]
  | (k', v') :: d' =>
      if decide (k' = k) then (k, v) :: d' else (k', v') :: dict_set k v d'
  end.

Fixpoint dict_get (k : string) (d : list (string * Value)) : option Value :=
  match d with
  | [] => None
  | (k', v') :: d' => if decide (k' = k) then Some v' else dict_get k d'
  end.

Definition dict_has (k : string) (d : list (string * Value)) : bool :=
  bool_decide (is_Some (dict_get k d)).

Definition as_str (v : Value) : option string :=
  match v with JString s => Some s | _ => None end.

(** The mapping of string to string a value denotes, when it is a dict whose
    values are all strings. *)
Definition as_store (v : Value) : option (gmap string string) :=
  match v with
  | JDict d => list_to_map <$> mapM (fun kv => pair kv.1 <$> as_str kv.2) d
  | _ => None
  end.

(** The dict object with the given string entries, in that order. *)
Definition dict_of (items : list (string * string)) : Value :=
  JDict (prod_map id JString <$> items).

(** A dict object holding the entries of a mapping. *)
Definition of_store (m : gmap string string) : Value :=
  dict_of (map_to_list m).

(** The invariant of a Python dict: no key occurs twice. *)
Definition unique_keys (v : Value) : Prop :=
  match v with JDict d => NoDup d.*1 | _ => True end.

(** *** encoding: [json.dumps(obj, indent=2, sort_keys=True)] *)

Definition hex_digit (n : N) : ascii :=
  if n <? 10 then chr (48 + n) else chr (87 + n).

(** One character of a string, [ensure_ascii] being on: the quote, the
    backslash and the short escapes, [\u00xx] for everything else outside
    SPACE..TILDE. *)
Definition escape_char (c : ascii) : string :=
  let n := ord c in
  if n =? 34 then String backslash (String dquote EmptyString)
  else if n =? 92 then "\\"
  else if n =? 10 then "\n"
  else if n =? 13 then "\r"
  else if n =? 9 then "\t"
  else if n =? 8 then "\b"
  else if n =? 12 then "\f"
  else if (n <? 32) || (126 <? n)
       then "\u00" +:+ String (hex_digit (n / 16))
                         (String (hex_digit (n mod 16)) EmptyString)
  else String c EmptyString.

Fixpoint escape (s : string) : string :=
  match s with
  | EmptyString => EmptyString
  | String c s' => escape_char c +:+ escape s'
  end.

Definition encode_string (s : string) : string :=
  String dquote (escape s) +:+ String dquote EmptyString.

Fixpoint indent_of (level : nat) : string :=
  match level with
  | O => EmptyString
  | S l => "  " +:+ indent_of l
  end.

Definition newline_indent (level : nat) : string := NL +:+ indent_of level.

(** [sorted(dct.items())]: the keys of a dict differ, so the order of the
    keys decides. *)
Definition key_le {A} (p q : string * A) : Prop := String.le p.1 q.1.

#[global] Instance key_le_dec {A} : RelDecision (@key_le A).
Proof. intros p q. unfold key_le. apply _. Defined.

Definition sorted_items {A} (items : list (string * A)) : list (string * A) :=
  merge_sort key_le items.

Definition encode_item (kc : string * string) : string :=
  encode_string kc.1 +:+ ": " +:+ kc.2.

(** An object at nesting [level], its values already encoded. *)
Definition encode_dict (level : nat) (items : list (string * string)) : string :=
  match items with
  | [] => "{}"
  | _ =>
      "{" +:+ newline_indent (S level)
      +:+ join ("," +:+ newline_indent (S level))
               (encode_item <$> sorted_items items)
      +:+ newline_indent level +:+ "}"
  end.

Definition encode_list (level : nat) (chunks : list string) : string :=
  match chunks with
  | [] => "[]"
  | _ =>
      "[" +:+ newline_indent (S level)
      +:+ join ("," +:+ newline_indent (S level)) chunks
      +:+ newline_indent level +:+ "]"
  end.

Section encode.
Context {repr : NumberRepr}.

Fixpoint encode (level : nat) (v : Value) : string :=
  match v with
  | JNull => "null"
  | JBool true => "true"
  | JBool false => "false"
  | JNumber lit => number_repr lit
  | JString s => encode_string s
  | JList l => encode_list level (map (encode (S level)) l)
  | JDict d =>
      encode_dict level
        (map (fun kv => (kv.1, encode (S level) kv.2)) d)
  end.

Definition dumps (v : Value) : string := encode 0 v.

End encode.

(** *** the registry file, in the words of its description

    A single JSON object of string members, the keys in ascending order,
    one member a line, indented by two spaces. *)

Definition entry_line (kv : string * string) : string :=
  encode_string kv.1 +:+ ": " +:+ encode_string kv.2.

Definition registry_text (m : gmap string string) : string :=
  match sorted_items (map_to_list m) with
  | [] => "{}"
  | entries =>
      "{" +:+ NL +:+ "  "
      +:+ join ("," +:+ NL +:+ "  ") (entry_line <$> entries)
      +:+ NL +:+ "}"
  end.

(** *** decoding: [json.loads(text)] *)

(** The blanks between tokens: space, TAB, LF, CR. *)
Definition is_ws (c : ascii) : bool :=
  let n := ord c in (n =? 32) || (n =? 9) || (n =? 10) || (n =? 13).

Fixpoint skip_ws (s : string) : string :=
  match s with
  | EmptyString => EmptyString
  | String c s' => if is_ws c then skip_ws s' else s
  end.

Definition is_digit (c : ascii) : bool :=
  let n := ord c in (48 <=? n) && (n <=? 57).

Definition hex_value (c : ascii) : option N :=
  let n := ord c in
  if (48 <=? n) && (n <=? 57) then Some (n - 48)
  else if (97 <=? n) && (n <=? 102) then Some (n - 87)
  else if (65 <=? n) && (n <=? 70) then Some (n - 55)
  else None.

Definition hex4 (h1 h2 h3 h4 : ascii) : option N :=
  a ← hex_value h1; b ← hex_value h2; c ← hex_value h3; d ← hex_value h4;
  Some (((a * 16 + b) * 16 + c) * 16 + d).

(** The character a one-letter escape stands for. *)
Definition unescape (e : ascii) : option ascii :=
  let n := ord e in
  if n =? 34 then Some dquote
  else if n =? 92 then Some backslash
  else if n =? 47 then Some "/"%char
  else if n =? 98 then Some (chr 8)
  else if n =? 102 then Some (chr 12)
  else if n =? 110 then Some (chr 10)
  else if n =? 114 then Some (chr 13)
  else if n =? 116 then Some (chr 9)
  else None.

(** The string that starts after an opening quote, and the text after its
    closing quote.  A raw control character is refused (the decoder is
    strict).  An escape [\uXXXX] above U+00FF names a character outside the
    modelled alphabet and has no value here. *)
Fixpoint scanstring (s : string) : option (string * string) :=
  match s with
  | EmptyString => None
  | String c rest =>
      if ord c =? 34 then Some (EmptyString, rest)
      else if ord c =? 92 then
        match rest with
        | String e rest1 =>
            if ord e =? 117 then
              match rest1 with
              | String h1 (String h2 (String h3 (String h4 rest2))) =>
                  match hex4 h1 h2 h3 h4 with
                  | Some n =>
                      if n <? 256
                      then prod_map (String (chr n)) id <$> scanstring rest2
                      else None
                  | None => None
                  end
              | _ => None
              end
            else
              match unescape e with
              | Some ch => prod_map (String ch) id <$> scanstring rest1
              | None => None
              end
        | EmptyString => None
        end
      else if ord c <? 32 then None
      else prod_map (String c) id <$> scanstring rest
  end.

(** The longest run of digits at the head of a text, and the text after it. *)
Fixpoint span_digits (s : string) : string * string :=
  match s with
  | String c s' =>
      if is_digit c
      then let '(ds, r) := span_digits s' in (String c ds, r)
      else (EmptyString, s)
  | EmptyString => (EmptyString, EmptyString)
  end.

(** The integer part [0|[1-9][0-9]*]. *)
Definition scan_int (s : string) : option (string * string) :=
  match s with
  | String c s' =>
      if ord c =? 48 then Some ("0", s')
      else if is_digit c
           then let '(ds, r) := span_digits s' in Some (String c ds, r)
           else None
  | EmptyString => None
  end.

(** The optional fraction [\.[0-9]+]. *)
Definition scan_frac (s : string) : string * string :=
  match s with
  | String c s' =>
      if ord c =? 46 then
        match span_digits s' with
        | (String d ds, r) => (String c (String d ds), r)
        | (EmptyString, _) => (EmptyString, s)
        end
      else (EmptyString, s)
  | EmptyString => (EmptyString, s)
  end.

(** The optional exponent [[eE][-+]?[0-9]+]. *)
Definition scan_exp (s : string) : string * string :=
  match s with
  | String c s' =>
      if (ord c =? 101) || (ord c =? 69) then
        let '(sign, s'') :=
          match s' with
          | String g t =>
              if (ord g =? 45) || (ord g =? 43)
              then (String g EmptyString, t) else (EmptyString, s')
          | EmptyString => (EmptyString, s')
          end in
        match span_digits s'' with
        | (String d ds, r) => (String c sign +:+ String d ds, r)
        | (EmptyString, _) => (EmptyString, s)
        end
      else (EmptyString, s)
  | EmptyString => (EmptyString, s)
  end.

(** A number at the head of a text: its literal and the text after it. *)
Definition scan_number (s : string) : option (string * string) :=
  let '(minus, s1) :=
    match s with
    | String c s' => if ord c =? 45 then ("-", s') else (EmptyString, s)
    | EmptyString => (EmptyString, s)
    end in
  match scan_int s1 with
  | Some (i, s2) =>
      let '(f, s3) := scan_frac s2 in
      let '(e, s4) := scan_exp s3 in
      Some (minus +:+ i +:+ f +:+ e, s4)
  | None => None
  end.

(** [word] at the head of [s]: the text after it. *)
Fixpoint expect (word s : string) : option string :=
  match word, s with
  | EmptyString, _ => Some s
  | String a w, String b s' => if decide (a = b) then expect w s' else None
  | String _ _, EmptyString => None
  end.

(** The literals [null], [true], [false], then a number, then the float
    constants [NaN], [Infinity] and [-Infinity]. *)
Definition scan_atom (s : string) : option (Value * string) :=
  match expect "null" s with Some r => Some (JNull, r) | None =>
  match expect "true" s with Some r => Some (JBool true, r) | None =>
  match expect "false" s with Some r => Some (JBool false, r) | None =>
  match scan_number s with Some (lit, r) => Some (JNumber lit, r) | None =>
  match expect "NaN" s with Some r => Some (JNumber "NaN", r) | None =>
  match expect "Infinity" s with Some r => Some (JNumber "Infinity", r) | None =>
  match expect "-Infinity" s with Some r => Some (JNumber "-Infinity", r) | None =>
  None end end end end end end end.

(** One value at the head of a text ([scan_once]), the elements of an array
    after its bracket, the members of an object after the quote that opens
    a key.  [fuel] bounds the depth of the calls; [loads] gives more than a
    text can use ([FuelFacts.loads_fuel_adequate]). *)
Fixpoint scan_once (fuel : nat) (s : string) : option (Value * string) :=
  match fuel with
  | O => None
  | S fuel' =>
      match s with
      | EmptyString => None
      | String c rest =>
          if ord c =? 34 then prod_map JString id <$> scanstring rest
          else if ord c =? 123 then
            match skip_ws rest with
            | String c1 rest1 =>
                if ord c1 =? 125 then Some (JDict [], rest1)
                else if ord c1 =? 34 then scan_members fuel' [] rest1
                else None
            | EmptyString => None
            end
          else if ord c =? 91 then
            match skip_ws rest with
            | String c1 rest1 =>
                if ord c1 =? 93 then Some (JList [], rest1)
                else scan_elements fuel' [] (String c1 rest1)
            | EmptyString => None
            end
          else scan_atom s
      end
  end
with scan_elements (fuel : nat) (acc : list Value) (s : string)
  : option (Value * string) :=
  match fuel with
  | O => None
  | S fuel' =>
      match scan_once fuel' s with
      | Some (v, r) =>
          match skip_ws r with
          | String c r1 =>
              if ord c =? 93 then Some (JList (acc ++ [v]), r1)
              else if ord c =? 44 then scan_elements fuel' (acc ++ [v]) (skip_ws r1)
              else None
          | EmptyString => None
          end
      | None => None
      end
  end
with scan_members (fuel : nat) (acc : list (string * Value)) (s : string)
  : option (Value * string) :=
  match fuel with
  | O => None
  | S fuel' =>
      match scanstring s with
      | Some (k, r) =>
          match skip_ws r with
          | String c r1 =>
              if ord c =? 58 then
                match scan_once fuel' (skip_ws r1) with
                | Some (v, r2) =>
                    match skip_ws r2 with
                    | String c2 r3 =>
                        if ord c2 =? 125 then Some (JDict (dict_set k v acc), r3)
                        else if ord c2 =? 44 then
                          match skip_ws r3 with
                          | String c3 r4 =>
                              if ord c3 =? 34
                              then scan_members fuel' (dict_set k v acc) r4
                              else None
                          | EmptyString => None
                          end
                        else None
                    | EmptyString => None
                    end
                | None => None
                end
              else None
          | EmptyString => None
          end
      | None => None
      end
  end.

(** [json.loads(text)]: one value, blanks around it, nothing after it;
    [None] when the decoder raises. *)
Definition loads (text : string) : option Value :=
  match scan_once (2 * String.length text + 2) (skip_ws text) with
  | Some (v, r) =>
      match skip_ws r with
      | EmptyString => Some v
      | String _ _ => None
      end
  | None => None
  end.

End Json.

(** ** The interpreter: exceptions, and actions that leave a trace *)

Module Py.

(** [str(x)] for the objects the scripts format into their messages and whose
    text is fixed outside the repository. *)
Class Show (A : Type) := str : A -> string.

Inductive Exn : Type :=
| SystemExit (message : string)
| TypeError
| RemoteError (text : string).

(** [str(e)] *)
Definition exn_text (e : Exn) : string :=
  match e with
  | SystemExit message => message
  | TypeError => EmptyString
  | RemoteError text => text
  end.

(** What a scripted remote operation answers: a value, or it raises an
    error of the service with the given text. *)
Inductive Reply (A : Type) : Type :=
| Ok (a : A)
| Fails (text : string).
Arguments Ok {A} a.
Arguments Fails {A} text.

(** How a piece of a script ends: it returns, an exception leaves it, or
    the scripted service has no answer left for the call it made. *)
Inductive Outcome (A : Type) : Type :=
| Done (a : A)
| Raised (e : Exn)
| Unscripted.
Arguments Done {A} a.
Arguments Raised {A} e.
Arguments Unscripted {A}.

Section actions.
Context {Event : Type}.

(** An action: how it ends, and what it did, oldest event first. *)
Definition Action (A : Type) : Type := Outcome A * list Event.

Definition ret {A} (a : A) : Action A := (Done a, []).

Definition bind {A B} (m : Action A) (k : A -> Action B) : Action B :=
  match m with
  | (Done a, tr) => let '(o, tr') := k a in (o, tr ++ tr')
  | (Raised e, tr) => (Raised e, tr)
  | (Unscripted, tr) => (Unscripted, tr)
  end.

Definition emit (e : Event) : Action unit := (Done tt, [e]).

Definition raise {A} (e : Exn) : Action A := (Raised e, []).

(** [try: m except Exception as e: h e]; [SystemExit] is no [Exception]. *)
Definition try_except {A} (m : Action A) (h : Exn -> Action A) : Action A :=
  match m with
  | (Raised (SystemExit msg), tr) => (Raised (SystemExit msg), tr)
  | (Raised e, tr) => let '(o, tr') := h e in (o, tr ++ tr')
  | _ => m
  end.

(** [m] with [events] before it. *)
Definition after {A} (events : list Event) (m : Action A) : Action A :=
  (m.1, events ++ m.2).

End actions.

#[global] Instance Action_ret {Event} : MRet (@Action Event) := @ret Event.
#[global] Instance Action_bind {Event} : MBind (@Action Event) :=
  fun A B k m => bind m k.

End Py.

(** ** The agent service, as the two scripts use it *)

Module Sdk.
Import PyStr Py.

Inductive RunStatus : Type :=
| QUEUED | IN_PROGRESS | REQUIRES_ACTION | CANCELLING
| CANCELLED | FAILED | COMPLETED | EXPIRED.

#[global] Instance RunStatus_eq_dec : EqDecision RunStatus.
Proof. solve_decision. Defined.

Record MCPToolDefinition : Type := {
  server_label : string;
  server_url : string;
  allowed_tools : list string }.

(** [McpTool(server_label=..., server_url=...)] *)
Record McpTool : Type := {
  tool_server_label : string;
  tool_server_url : string }.

(** [mcp_tool.definitions] *)
Definition definitions (t : McpTool) : list MCPToolDefinition :=
  [ {| server_label := tool_server_label t;
       server_url := tool_server_url t;
       allowed_tools := [] |} ].

Record Agent : Type := { id : string }.

Record AgentThread : Type := { thread_id : string }.

Inductive RequiredToolCall : Type :=
| RequiredMcpToolCall (call_id : string) (name arguments : string)
| RequiredFunctionToolCall (call_id : string) (name arguments : string).

Definition tool_call_id_of (tc : RequiredToolCall) : string :=
  match tc with
  | RequiredMcpToolCall i _ _ => i
  | RequiredFunctionToolCall i _ _ => i
  end.

Inductive RequiredAction : Type :=
| SubmitToolApprovalAction (tool_calls : list RequiredToolCall)
| SubmitToolOutputsAction (tool_calls : list RequiredToolCall).

Record RunError : Type := { code : string; message : string }.

Record ThreadRun : Type := {
  run_id : string;
  status : RunStatus;
  required_action : option RequiredAction;
  last_error : option RunError }.

Record ToolApproval : Type := { tool_call_id : string; approve : bool }.

Inductive MessageRole : Type := USER | AGENT.

Inductive MessageContent : Type :=
| MessageTextContent (value : string)
| MessageImageFileContent (file_id : string).

Record ThreadMessage : Type := {
  message_id : string;
  role : MessageRole;
  content : list MessageContent }.

(** [msg.text_messages]: the text segments of a message, in order. *)
Definition text_messages (m : ThreadMessage) : list string :=
  omap (fun c => match c with
                 | MessageTextContent v => Some v
                 | MessageImageFileContent _ => None
                 end) (content m).

Inductive ListSortOrder : Type := ASCENDING | DESCENDING.

(** [tools] of an activity holds the keys of its dict, in order. *)
Record RunStepActivity : Type := { tools : list string }.

Inductive RunStepDetails : Type :=
| RunStepMessageCreationDetails
| RunStepToolCallDetails
| RunStepActivityDetails (activities : list RunStepActivity).

Record RunStep : Type := { step_details : option RunStepDetails }.

(** The operations of the service, with the arguments the scripts pass. *)
Inductive Call : Type :=
| create_agent (model name instructions : string)
               (tools : list MCPToolDefinition)
| get_agent (agent_id : Json.Value)
| threads_create
| messages_create (thread role content : string)
| runs_create (thread : string) (agent_id : Json.Value)
| runs_get (thread run : string)
| runs_submit_tool_outputs (thread run : string)
                           (tool_approvals : list ToolApproval)
| messages_list (thread : string) (order : ListSortOrder)
| run_steps_list (thread run : string).

(** What a script does to the world outside it. *)
Inductive Event : Type :=
| Print (text : string)
| Prompt (text : string)
| Sleep (seconds : N)
| Remote (call : Call).

Definition print (text : string) : Action unit := emit (Print text).

(** A remote call answered by [reply]. *)
Definition remote {A} (c : Call) (reply : Reply A) : Action A :=
  match reply with
  | Ok a => (Done a, [Remote c])
  | Fails text => (Raised (RemoteError text), [Remote c])
  end.

(** A remote call answered by the next scripted reply; the replies left. *)
Definition remote_next {A} (c : Call) (replies : list (Reply A))
  : Action (A * list (Reply A)) :=
  match replies with
  | [] => (Unscripted, [Remote c])
  | r :: rest => a ← remote c r; mret (a, rest)
  end.

Definition is_remote (e : Event) : bool :=
  match e with Remote _ => true | _ => false end.

(** The remote calls of a trace. *)
Definition remote_calls (tr : list Event) : list Event :=
  List.filter is_remote tr.

End Sdk.

(** ** What the two scripts share: the environment and the registry file *)

Module Common.
Import PyStr Py Json.

Definition AGENT_STORE_FILE : string := ".agents.json".

(** [load_dotenv(override=False)]: the variables of the local [.env] file
    are added to the environment, those already set keep their value. *)
Definition load_dotenv (dotenv environ : gmap string string)
  : gmap string string := environ ∪ dotenv.

(** [a or b] on values that are a string or [None]. *)
Definition py_or (a b : option string) : option string :=
  match a with
  | Some s => if truthy s then a else b
  | None => b
  end.

(** A value that passes [if not x: raise ...]: a string that is not empty. *)
Definition required (x : option string) : option string :=
  match x with
  | Some s => if truthy s then Some s else None
  | None => None
  end.

(** The text of the exception [json.loads] raises on a document. *)
Inductive JSONDecodeError : Type := DecodeError (doc : string).

(** [f"{v}"]: a string stands for itself. *)
Definition format_value {show_value : Show Value} (v : Value) : string :=
  match v with JString s => s | _ => str v end.

(** [store[k] = v] *)
Definition setitem (store : Value) (k : string) (v : Value) : option Value :=
  match store with
  | JDict d => Some (JDict (dict_set k v d))
  | _ => None
  end.

(** [store[k]] with a string [k] that [k in store] has found. *)
Definition getitem (store : Value) (k : string) : option Value :=
  match store with
  | JDict d => dict_get k d
  | _ => None
  end.

(** [k in store] with a string [k]: a key of a dict, an element of a list,
    a substring of a string; the other values are no containers. *)
Definition py_in (k : string) (store : Value) : option bool :=
  match store with
  | JDict d => Some (dict_has k d)
  | JList l =>
      Some (existsb (fun v => match v with
                              | JString s => bool_decide (s = k)
                              | _ => false
                              end) l)
  | JString s => Some (contains k s)
  | _ => None
  end.

End Common.

(** ** create-agent.py *)

Module CreateAgent.
Import PyStr Py Json Sdk Common.

(** The options on the command line, each given or not. *)
Record Argv : Type := {
  opt_name : option string;
  opt_model : option string;
  opt_mcp_url : option string;
  opt_mcp_label : option string }.

Record Namespace : Type := {
  name : string;
  model : option string;
  mcp_url : string;
  mcp_label : string }.

Definition INSTRUCTIONS : string :=
  "You are a helpful agent that can use MCP tools to assist users. "
  +:+ "Use the available MCP tools to answer questions and perform tasks.".

Definition load_store (file : option string) : Value :=
  match file with
  | Some text =>
      match loads text with
      | Some store => store
      | None => JDict []
      end
  | None => JDict []
  end.

Section script.
Context {repr : NumberRepr}.

Definition save_store (store : Value) : option string :=
  Some (dumps store).

Definition parse_args (argv : Argv) (environ : gmap string string)
  : Action (Event:=Event) Namespace :=
  match opt_name argv with
  | None => raise (SystemExit "the following arguments are required: --name")
  | Some n =>
      mret {| name := n;
              model := opt_model argv;
              mcp_url :=
                default (default "https://gitmcp.io/Azure/azure-rest-api-specs"
                                 (environ !! "MCP_SERVER_URL"))
                        (opt_mcp_url argv);
              mcp_label :=
                default (default "github" (environ !! "MCP_SERVER_LABEL"))
                        (opt_mcp_label argv) |}
  end.

(** [main] up to the end of the [with] block: the arguments, and the agent
    the service created. *)
Definition create (argv : Argv) (environ : gmap string string)
  (created : Reply Agent) : Action (Event:=Event) (Namespace * Agent) :=
  args ← parse_args argv environ;
  match required (py_or (model args) (environ !! "MODEL_DEPLOYMENT_NAME")) with
  | None =>
      raise (SystemExit ("Model deployment name must be provided via "
                         +:+ "--model or MODEL_DEPLOYMENT_NAME env var"))
  | Some model =>
      match required (environ !! "PROJECT_ENDPOINT") with
      | None => raise (SystemExit "PROJECT_ENDPOINT env var is required")
      | Some endpoint =>
          let mcp_tool := {| tool_server_label := mcp_label args;
                             tool_server_url := mcp_url args |} in
          agent ← remote (create_agent model (name args) INSTRUCTIONS
                                       (definitions mcp_tool)) created;
          mret (args, agent)
      end
  end.

(** [main]: how the script ends with its trace, and the registry file it
    leaves.  [created] is what the service answers to [create_agent]. *)
Definition main (argv : Argv) (environ dotenv : gmap string string)
  (file : option string) (created : Reply Agent)
  : Action (Event:=Event) unit * option string :=
  let environ := load_dotenv dotenv environ in
  match create argv environ created with
  | (Done (args, agent), tr) =>
      let store := load_store file in
      match setitem store (name args) (JString (id agent)) with
      | Some store =>
          ((Done tt,
            tr ++ [Print ("Created agent '" +:+ name args +:+ "' with ID: "
                          +:+ id agent);
                   Print ("Stored mapping in " +:+ AGENT_STORE_FILE)]),
           save_store store)
      | None => ((Raised TypeError, tr), file)
      end
  | (Raised e, tr) => ((Raised e, tr), file)
  | (Unscripted, tr) => ((Unscripted, tr), file)
  end.

End script.

End CreateAgent.

(** ** run-agent.py *)

Module RunAgent.
Import PyStr Py Json Sdk Common.

Record Argv : Type := { opt_name : option string }.

Record Namespace : Type := { name : string }.

(** What the service answers during one turn of the conversation, each
    list in the order of the calls. *)
Record Turn : Type := {
  created_message : Reply ThreadMessage;
  created_run : Reply ThreadRun;
  fetched_runs : list (Reply ThreadRun);
  submitted : list (Reply ThreadRun);
  listed_messages : Reply (list ThreadMessage);
  listed_steps : Reply (list RunStep) }.

(** The world around one session: the lines typed at the prompt (the end of
    the list is the end of input) and the answers of the service. *)
Record World : Type := {
  stdin : list string;
  agent : Reply Agent;
  thread : Reply AgentThread;
  turns : list Turn }.

Definition QUIT_COMMANDS : list string := [":quit"; ":q"; ":exit"].

(** [run.status in [QUEUED, IN_PROGRESS, REQUIRES_ACTION]] *)
Definition polling (s : RunStatus) : bool :=
  match s with
  | QUEUED | IN_PROGRESS | REQUIRES_ACTION => true
  | _ => false
  end.

(** The most recent message of the agent that has a text segment, scanning
    [reversed(list(messages))]: its last text segment. *)
Fixpoint last_assistant (reversed : list ThreadMessage) : option string :=
  match reversed with
  | [] => None
  | msg :: older =>
      match role msg, last (text_messages msg) with
      | AGENT, Some text => Some text
      | _, _ => last_assistant older
      end
  end.

(** The same selection in the words of the specification: of the messages
    in ascending order, scanned from the most recent one backward, the first
    one of the agent that has a text segment; its last text segment. *)
Definition has_agent_text (msg : ThreadMessage) : bool :=
  match role msg, text_messages msg with
  | AGENT, _ :: _ => true
  | _, _ => false
  end.

Definition selected_message (messages : list ThreadMessage)
  : option ThreadMessage :=
  List.find has_agent_text (reverse messages).

Definition reply_text (messages : list ThreadMessage) : option string :=
  msg ← selected_message messages; last (text_messages msg).

(** The usage notes of the step history. *)
Definition tool_notes (run_steps : list RunStep) : list Event :=
  flat_map (fun step =>
    match step_details step with
    | Some (RunStepActivityDetails activities) =>
        flat_map (fun activity =>
          map (fun fn_name => Print ("  (Tool used: " +:+ fn_name +:+ ")"))
              (tools activity)) activities
    | _ => []
    end) run_steps.

Section script.
Context {show_status : Show RunStatus}
        {show_tool_call : Show RequiredToolCall}
        {show_error : Show RunError}
        {show_value : Show Value}
        {show_decode_error : Show JSONDecodeError}.

(** [f"{run.last_error}"]: the error, or [None]. *)
#[global] Instance Show_last_error : Show (option RunError) :=
  fun e => match e with Some e => str e | None => "None" end.

Definition load_store (file : option string) : Action (Event:=Event) Value :=
  match file with
  | None =>
      raise (SystemExit ("Agent store " +:+ AGENT_STORE_FILE
                         +:+ " not found. Run create-agent.py first."))
  | Some text =>
      match loads text with
      | Some store => mret store
      | None =>
          raise (SystemExit ("Failed to read " +:+ AGENT_STORE_FILE +:+ ": "
                             +:+ str (DecodeError text)))
      end
  end.

Definition parse_args (argv : Argv) : Action (Event:=Event) Namespace :=
  match opt_name argv with
  | None => raise (SystemExit "the following arguments are required: --name")
  | Some n => mret {| name := n |}
  end.

(** The loop over [tool_calls]: one approval for each remote-tool call. *)
Fixpoint collect_approvals (tool_calls : list RequiredToolCall)
  (approvals : list ToolApproval) : Action (Event:=Event) (list ToolApproval) :=
  match tool_calls with
  | [] => mret approvals
  | tool_call :: rest =>
      match tool_call with
      | RequiredMcpToolCall call_id _ _ =>
          print ("Approving MCP tool call: " +:+ str tool_call +:+ ")");;
          collect_approvals rest
            (approvals ++ [ {| tool_call_id := call_id; approve := true |} ])
      | RequiredFunctionToolCall _ _ _ => collect_approvals rest approvals
      end
  end.

(** The approval handling after a fetch; the scripted answers to
    [submit_tool_outputs] that are left. *)
Definition handle_approvals (thread_id : string) (run : ThreadRun)
  (submitted : list (Reply ThreadRun))
  : Action (Event:=Event) (list (Reply ThreadRun)) :=
  match status run, required_action run with
  | REQUIRES_ACTION, Some (SubmitToolApprovalAction tool_calls) =>
      approvals ← collect_approvals tool_calls [];
      match approvals with
      | [] => mret submitted
      | _ =>
          '(_, rest) ← remote_next
              (runs_submit_tool_outputs thread_id (run_id run) approvals)
              submitted;
          mret rest
      end
  | _, _ => mret submitted
  end.

(** The polling loop; each round takes the next scripted answer to
    [runs.get]. *)
Fixpoint poll (thread_id : string) (fetched : list (Reply ThreadRun))
  (submitted : list (Reply ThreadRun)) (run : ThreadRun)
  : Action (Event:=Event) ThreadRun :=
  if polling (status run) then
    match fetched with
    | [] => (Unscripted, [Sleep 1; Remote (runs_get thread_id (run_id run))])
    | reply :: fetched' =>
        emit (Sleep 1);;
        run ← remote (runs_get thread_id (run_id run)) reply;
        submitted ← handle_approvals thread_id run submitted;
        print ("  Status: " +:+ str (status run));;
        poll thread_id fetched' submitted run
    end
  else mret run.

(** The body of the loop from [messages.create] on. *)
Definition turn (thread_id : string) (agent_id : Value) (user_input : string)
  (t : Turn) : Action (Event:=Event) unit :=
  message ← remote (messages_create thread_id "user" user_input)
                   (created_message t);
  print ("Created message: " +:+ message_id message);;
  run ← remote (runs_create thread_id agent_id) (created_run t);
  print ("Run: " +:+ run_id run +:+ " (status: " +:+ str (status run) +:+ ")");;
  run ← poll thread_id (fetched_runs t) (submitted t) run;
  if bool_decide (status run = FAILED) then
    print ("Run failed: " +:+ str (last_error run))
  else
    messages ← remote (messages_list thread_id ASCENDING) (listed_messages t);
    match last_assistant (reverse messages) with
    | Some text =>
        if truthy text
        then print (NL +:+ "Assistant:" +:+ NL +:+ text +:+ NL)
        else mret tt
    | None => mret tt
    end;;
    run_steps ← remote (run_steps_list thread_id (run_id run)) (listed_steps t);
    (Done tt, tool_notes run_steps).

(** The events of a turn before its polling loop, when the message and the
    run are created. *)
Definition turn_start (thread_id : string) (agent_id : Value)
  (user_input : string) (message : ThreadMessage) (run : ThreadRun)
  : list Event :=
  [Remote (messages_create thread_id "user" user_input);
   Print ("Created message: " +:+ message_id message);
   Remote (runs_create thread_id agent_id);
   Print ("Run: " +:+ run_id run +:+ " (status: " +:+ str (status run)
          +:+ ")")].

(** The reply a turn prints for the messages listed: the selected text, if
    there is one and it is not empty. *)
Definition reply_events (messages : list ThreadMessage) : list Event :=
  match reply_text messages with
  | Some text =>
      if truthy text
      then [Print (NL +:+ "Assistant:" +:+ NL +:+ text +:+ NL)]
      else []
  | None => []
  end.

(** [while True:], one line of input a round. *)
Fixpoint repl (thread_id : string) (agent_id : Value) (stdin : list string)
  (turns : list Turn) : Action (Event:=Event) unit :=
  match stdin with
  | [] => emit (Prompt "> ");; print EmptyString
  | line :: stdin' =>
      emit (Prompt "> ");;
      let user_input := strip line in
      if negb (truthy user_input) then repl thread_id agent_id stdin' turns
      else if bool_decide (lower user_input ∈ QUIT_COMMANDS) then mret tt
      else
        match turns with
        | [] =>
            (Unscripted,
             [Remote (messages_create thread_id "user" user_input)])
        | t :: turns' =>
            turn thread_id agent_id user_input t;;
            repl thread_id agent_id stdin' turns'
        end
  end.

Definition main (argv : Argv) (environ dotenv : gmap string string)
  (file : option string) (w : World) : Action (Event:=Event) unit :=
  let environ := load_dotenv dotenv environ in
  args ← parse_args argv;
  store ← load_store file;
  match py_in (name args) store with
  | None => raise TypeError
  | Some false =>
      raise (SystemExit ("Agent name '" +:+ name args +:+ "' not found in "
                         +:+ AGENT_STORE_FILE +:+ ". Create it first."))
  | Some true =>
      match getitem store (name args) with
      | None => raise TypeError
      | Some agent_id =>
          match required (environ !! "PROJECT_ENDPOINT") with
          | None => raise (SystemExit "PROJECT_ENDPOINT env var is required")
          | Some endpoint =>
              try_except (remote (get_agent agent_id) (agent w))
                (fun e =>
                   raise (SystemExit
                     ("Failed to retrieve agent '" +:+ name args +:+ "' (id="
                      +:+ format_value agent_id +:+ "): " +:+ exn_text e)));;
              thread ← remote threads_create (thread w);
              print ("Session thread ID: " +:+ thread_id thread);;
              print ("Type messages. Use :quit to exit." +:+ NL);;
              repl (thread_id thread) agent_id (stdin w) (turns w);;
              print "Exiting. (Agent not deleted; reuse with another session.)"
          end
      end
  end.

End script.

End RunAgent.

(** * Facts

    ** Strings *)

Module StrFacts.
Import PyStr.

Lemma str_app_cons c s t : String c s +:+ t = String c (s +:+ t).
Proof. reflexivity. Qed.

Lemma str_app_nil_l t : EmptyString +:+ t = t.
Proof. reflexivity. Qed.

Lemma str_app_nil_r s : s +:+ EmptyString = s.
Proof. induction s as [|c s IH]; [done|]. by rewrite str_app_cons, IH. Qed.

Lemma str_app_assoc s t u : (s +:+ t) +:+ u = s +:+ (t +:+ u).
Proof. induction s as [|c s IH]; [done|]. by rewrite !str_app_cons, IH. Qed.


End StrFacts.

(** ** The registry text: encoding, decoding, and the round trip *)

Module JsonFacts.
Import PyStr Json StrFacts.



#[local] Arguments String.append !_ _ / : simpl nomatch.

Definition enc (kv : string * string) : string * string :=
  (kv.1, encode_string kv.2).







Ltac closed_bool t :=
  let b := eval vm_compute in t in
  match b with
  | true => change t with true
  | false => change t with false
  end.

Ltac eval_chars :=
  repeat match goal with
  | |- context [is_ws ?c] => closed_bool (is_ws c)
  | |- context [N.eqb (ord ?c) ?n] => closed_bool (N.eqb (ord c) n)
  | |- context [N.ltb (ord ?c) ?n] => closed_bool (N.ltb (ord c) n)
  end.

Ltac step :=
  repeat (progress (eval_chars;
                    cbn - [scan_once scan_members scan_elements ord is_ws])).



#[local] Instance key_le_trans {A} : Transitive (@key_le A).
Proof. intros x y z. unfold key_le. apply transitivity. Qed.

#[local] Instance key_le_total {A} : Total (@key_le A).
Proof. intros x y. unfold key_le. apply total, _. Qed.

Lemma NoDup_fst_inj {A} (l : list (string * A)) x y :
  NoDup l.*1 → x ∈ l → y ∈ l → x.1 = y.1 → x = y.
Proof.
  induction l as [|z l IH]; intros Hnd Hx Hy Hxy; [by inv Hx|].
  cbn [fmap list_fmap] in Hnd. apply NoDup_cons in Hnd as [Hz Hnd].
  apply elem_of_cons in Hx as [->|Hx]; apply elem_of_cons in Hy as [->|Hy]; auto.
  - exfalso. apply Hz. rewrite Hxy. by apply list_elem_of_fmap_2.
  - exfalso. apply Hz. rewrite <- Hxy. by apply list_elem_of_fmap_2.
Qed.

(** Two sorted arrangements of the same entries with distinct keys agree. *)
Lemma sorted_unique {A} (l l1 l2 : list (string * A)) :
  NoDup l.*1 → l1 ≡ₚ l → l2 ≡ₚ l →
  StronglySorted key_le l1 → StronglySorted key_le l2 → l1 = l2.
Proof.
  intros Hnd H1 H2 S1 S2.
  apply (StronglySorted_unique_strong key_le); [|done|done|by rewrite H1, H2].
  intros x y Hx Hy Hxy Hyx. rewrite H1 in Hx. rewrite H2 in Hy.
  apply (NoDup_fst_inj l); [done..|].
  unfold key_le in *. by apply (anti_symm String.le).
Qed.

Lemma sorted_items_sorted {A} (l : list (string * A)) :
  StronglySorted key_le (sorted_items l).
Proof. apply StronglySorted_merge_sort; apply _. Qed.

Lemma sorted_items_perm {A} (l : list (string * A)) : sorted_items l ≡ₚ l.
Proof. apply merge_sort_Permutation. Qed.

Lemma fst_prod_map {A B} (f : A → B) (l : list (string * A)) :
  (prod_map id f <$> l).*1 = l.*1.
Proof. induction l as [|[] l IH]; [done|]. cbn. by rewrite IH. Qed.

Lemma sorted_items_fmap {A B} (f : A → B) (l : list (string * A)) :
  NoDup l.*1 →
  sorted_items (prod_map id f <$> l) = prod_map id f <$> sorted_items l.
Proof.
  intros Hnd.
  apply (sorted_unique (prod_map id f <$> l)).
  - by rewrite fst_prod_map.
  - apply sorted_items_perm.
  - by rewrite sorted_items_perm.
  - apply sorted_items_sorted.
  - apply (StronglySorted_fmap _ key_le key_le); [|apply sorted_items_sorted].
    by intros [] [].
Qed.



Lemma dumps_dict_of {repr : NumberRepr} items :
  dumps (dict_of items)
  = encode_dict 0 (enc <$> items).
Proof.
  unfold dumps, dict_of. cbn [encode]. f_equal.
  induction items as [|[k v] items IH]; [done|]. cbn. by rewrite <- IH.
Qed.



Lemma as_store_dict_of items :
  as_store (dict_of items) = Some (list_to_map items).
Proof.
  unfold as_store, dict_of.
  assert (mapM (λ kv : string * Value, pair kv.1 <$> as_str kv.2)
            (prod_map id JString <$> items) = Some items) as ->; [|done].
  induction items as [|[k v] items IH]; [done|].
  cbn. rewrite IH. done.
Qed.

Lemma as_store_inv v m :
  as_store v = Some m → ∃ items, v = dict_of items ∧ m = list_to_map items.
Proof.
  destruct v as [| | | | |d]; try done. unfold as_store, dict_of.
  intros Hm. apply fmap_Some in Hm as (items & Hitems & ->).
  exists items. split; [|done]. f_equal.
  apply mapM_Some in Hitems.
  induction Hitems as [|[k v] [k' v'] d items Hkv _ IH]; [done|].
  cbn [fmap list_fmap]. rewrite <- IH. f_equal.
  cbn in Hkv. destruct v; try done. cbn in Hkv. by simplify_eq.
Qed.

Lemma unique_keys_dict_of items : unique_keys (dict_of items) ↔ NoDup items.*1.
Proof. unfold unique_keys, dict_of. by rewrite fst_prod_map. Qed.

(** Every mapping is held by a dict. *)
Lemma of_store_denotes (m : gmap string string) :
  unique_keys (of_store m) ∧ as_store (of_store m) = Some m.
Proof.
  unfold of_store. split.
  - apply unique_keys_dict_of, NoDup_fst_map_to_list.
  - by rewrite as_store_dict_of, list_to_map_to_list.
Qed.



Lemma entries_of_store items :
  NoDup items.*1 →
  sorted_items (map_to_list (list_to_map (M:=gmap string string) items))
  = sorted_items items.
Proof.
  intros Hnd. apply (sorted_unique items); [done| | |apply sorted_items_sorted..].
  - rewrite sorted_items_perm. by apply map_to_list_to_map.
  - apply sorted_items_perm.
Qed.

(** The text written for a dict of strings is the registry text of its
    mapping. *)
Lemma dumps_registry_text {repr : NumberRepr} v m :
  unique_keys v → as_store v = Some m → dumps v = registry_text m.
Proof.
  intros Hu Hm. apply as_store_inv in Hm as (items & -> & ->).
  apply unique_keys_dict_of in Hu.
  rewrite dumps_dict_of. unfold registry_text. rewrite entries_of_store by done.
  destruct items as [|p0 items0]; [reflexivity|].
  unfold encode_dict; cbn [fmap list_fmap].
  change (enc p0 :: (enc <$> items0))
    with (prod_map id encode_string <$> (p0 :: items0)).
  rewrite sorted_items_fmap by done.
  destruct (sorted_items (p0 :: items0)) as [|p L] eqn:HL.
  { exfalso. pose proof (sorted_items_perm (p0 :: items0)) as Hp.
    rewrite HL in Hp. by apply Permutation_nil_l in Hp. }
  rewrite <- list_fmap_compose.
  unfold newline_indent; cbn [indent_of]. rewrite !str_app_nil_r.
  rewrite !str_app_assoc. do 3 f_equal.
Qed.







End JsonFacts.

(** ** The decoder and its fuel *)

Module FuelFacts.
Import PyStr Json StrFacts JsonFacts.

(** More fuel does not change what a scan returns. *)
Lemma scan_mono fuel :
  (∀ s res fuel', scan_once fuel s = Some res → (fuel ≤ fuel')%nat →
     scan_once fuel' s = Some res) ∧
  (∀ acc s res fuel', scan_elements fuel acc s = Some res →
     (fuel ≤ fuel')%nat → scan_elements fuel' acc s = Some res) ∧
  (∀ acc s res fuel', scan_members fuel acc s = Some res →
     (fuel ≤ fuel')%nat → scan_members fuel' acc s = Some res).
Proof.
  induction fuel as [|fuel (IHo & IHe & IHm)]; [by split_and!|].
  split_and!.
  - intros s res [|fuel'] Hs Hle; [lia|]. cbn [scan_once] in *.
    repeat case_match; simplify_eq; try done.
    + eapply IHm; [done|lia].
    + eapply IHe; [done|lia].
  - intros acc s res [|fuel'] Hs Hle; [lia|]. cbn [scan_elements] in *.
    destruct (scan_once fuel s) as [[v r]|] eqn:Ho; [|done].
    rewrite (IHo _ _ fuel' Ho) by lia.
    repeat case_match; simplify_eq; try done.
    eapply IHe; [done|lia].
  - intros acc s res [|fuel'] Hs Hle; [lia|]. cbn [scan_members] in *.
    destruct (scanstring s) as [[k r]|]; [|done].
    destruct (skip_ws r) as [|c r1]; [done|].
    destruct (ord c =? 58); [|done].
    destruct (scan_once fuel (skip_ws r1)) as [[v r2]|] eqn:Ho; [|done].
    rewrite (IHo _ _ fuel' Ho) by lia.
    repeat case_match; simplify_eq; try done.
    eapply IHm; [done|lia].
Qed.

#[local] Abbreviation len := String.length.

Lemma skip_ws_length s : (len (skip_ws s) ≤ len s)%nat.
Proof.
  induction s as [|c s IH]; [done|]. cbn [skip_ws].
  destruct (is_ws c); cbn [String.length]; lia.
Qed.

Lemma scanstring_length s : ∀ k r,
  scanstring s = Some (k, r) → (len r < len s)%nat.
Proof.
  remember (len s) as n eqn:Hn. revert s Hn.
  induction n as [n IH] using lt_wf_ind. intros s -> k r Hs.
  destruct s as [|c rest]; [done|]. cbn [scanstring] in Hs.
  assert (∀ t (f : string → string) k r,
            (len t ≤ len rest)%nat →
            prod_map f id <$> scanstring t = Some (k, r) →
            (len r < len (String c rest))%nat) as Hrec.
  { intros t f k' r' Hle Ht.
    destruct (scanstring t) as [[k0 r0]|] eqn:Hk; [|done].
    cbn in Ht. simplify_eq.
    specialize (IH (len t) ltac:(cbn [String.length]; lia) t eq_refl _ _ Hk).
    cbn [String.length]. lia. }
  repeat case_match; simplify_eq; try done.
  - cbn [String.length]. lia.
  - eapply Hrec; [|done]. cbn [String.length]. lia.
  - eapply Hrec; [|done]. cbn [String.length]. lia.
  - eapply Hrec; [|done]. lia.
Qed.

Lemma expect_length word : ∀ s r,
  expect word s = Some r → len s = (len word + len r)%nat.
Proof.
  induction word as [|a w IH]; intros s r Hs; cbn [expect] in Hs.
  - by simplify_eq.
  - destruct s as [|b s]; [done|]. case_decide; [|done].
    cbn [String.length]. by rewrite (IH _ _ Hs).
Qed.

Lemma span_digits_length s ds r :
  span_digits s = (ds, r) → (len r ≤ len s)%nat.
Proof.
  revert ds r. induction s as [|c s IH]; intros ds r Hs; cbn [span_digits] in Hs.
  - by simplify_eq.
  - destruct (is_digit c); [|by simplify_eq].
    destruct (span_digits s) as [ds' r'] eqn:Hd. simplify_eq.
    specialize (IH _ _ eq_refl). cbn [String.length]. lia.
Qed.

Lemma scan_int_length s i r : scan_int s = Some (i, r) → (len r < len s)%nat.
Proof.
  unfold scan_int. destruct s as [|c s]; [done|].
  destruct (ord c =? 48); [intros; simplify_eq; cbn [String.length]; lia|].
  destruct (is_digit c); [|done].
  destruct (span_digits s) as [ds r'] eqn:Hd. intros; simplify_eq.
  apply span_digits_length in Hd. cbn [String.length]. lia.
Qed.

Lemma scan_frac_length s f r : scan_frac s = (f, r) → (len r ≤ len s)%nat.
Proof.
  unfold scan_frac. destruct s as [|c s]; [by intros; simplify_eq|].
  destruct (ord c =? 46); [|by intros; simplify_eq].
  destruct (span_digits s) as [[|d ds] r'] eqn:Hd; intros; simplify_eq; [done|].
  apply span_digits_length in Hd. cbn [String.length]. lia.
Qed.

Lemma scan_exp_length s e r : scan_exp s = (e, r) → (len r ≤ len s)%nat.
Proof.
  unfold scan_exp. destruct s as [|c s]; [by intros; simplify_eq|].
  destruct ((ord c =? 101) || (ord c =? 69)); [|by intros; simplify_eq].
  destruct (match s with
            | EmptyString => (EmptyString, s)
            | String g t =>
                if (ord g =? 45) || (ord g =? 43)
                then (String g EmptyString, t) else (EmptyString, s)
            end) as [sign s''] eqn:Hsign.
  assert (len s'' ≤ len s)%nat as Hle.
  { destruct s as [|g t]; [by simplify_eq|].
    destruct ((ord g =? 45) || (ord g =? 43)); simplify_eq; cbn [String.length]; lia. }
  destruct (span_digits s'') as [[|d ds] r'] eqn:Hd; intros; simplify_eq; [done|].
  apply span_digits_length in Hd. cbn [String.length]. lia.
Qed.

Lemma scan_number_length s lit r :
  scan_number s = Some (lit, r) → (len r < len s)%nat.
Proof.
  unfold scan_number.
  destruct (match s with
            | EmptyString => (EmptyString, s)
            | String c s' => if ord c =? 45 then ("-", s') else (EmptyString, s)
            end) as [minus s1] eqn:Hminus.
  assert (len s1 ≤ len s)%nat as Hle.
  { destruct s as [|c s']; [by simplify_eq|].
    destruct (ord c =? 45); simplify_eq; cbn [String.length]; lia. }
  destruct (scan_int s1) as [[i s2]|] eqn:Hi; [|done].
  destruct (scan_frac s2) as [f s3] eqn:Hf.
  destruct (scan_exp s3) as [e s4] eqn:He. intros; simplify_eq.
  apply scan_int_length in Hi. apply scan_frac_length in Hf.
  apply scan_exp_length in He. lia.
Qed.

Lemma scan_atom_length s v r : scan_atom s = Some (v, r) → (len r < len s)%nat.
Proof.
  unfold scan_atom. intros Hs.
  repeat case_match; simplify_eq;
    try (match goal with H : expect _ _ = Some _ |- _ =>
           apply expect_length in H; cbn [String.length] in H; lia end).
  by eapply scan_number_length.
Qed.


(** A scan that succeeds takes characters, and needs no more fuel than
    twice their number (and one, inside a list or an object). *)
Lemma scan_bound fuel :
  (∀ s v r, scan_once fuel s = Some (v, r) →
     (len r < len s)%nat ∧
     scan_once (2 * (len s - len r)) s = Some (v, r)) ∧
  (∀ acc s v r, scan_elements fuel acc s = Some (v, r) →
     (len r < len s)%nat ∧
     scan_elements (2 * (len s - len r) + 1) acc s = Some (v, r)) ∧
  (∀ acc s v r, scan_members fuel acc s = Some (v, r) →
     (len r < len s)%nat ∧
     scan_members (2 * (len s - len r) + 1) acc s = Some (v, r)).
Proof.
  induction fuel as [|fuel (IHo & IHe & IHm)]; [by split_and!|].
  assert (∀ f f' s res, scan_once f s = Some res → (f ≤ f')%nat →
            scan_once f' s = Some res) as Mo
    by (intros f f' s res; apply (scan_mono f)).
  assert (∀ f f' acc s res, scan_elements f acc s = Some res → (f ≤ f')%nat →
            scan_elements f' acc s = Some res) as Me
    by (intros f f' acc s res; apply (scan_mono f)).
  assert (∀ f f' acc s res, scan_members f acc s = Some res → (f ≤ f')%nat →
            scan_members f' acc s = Some res) as Mm
    by (intros f f' acc s res; apply (scan_mono f)).
  split_and!.
  - intros s v r Hs. cbn [scan_once] in Hs.
    destruct s as [|c rest]; [done|].
    assert ((len r < len (String c rest))%nat →
            scan_once (S (2 * (len (String c rest) - len r) - 1)) (String c rest)
            = Some (v, r) →
            (len r < len (String c rest))%nat ∧
            scan_once (2 * (len (String c rest) - len r)) (String c rest)
            = Some (v, r)) as Hfin.
    { intros Hlt Hgoal. split; [done|].
      by replace (2 * (len (String c rest) - len r))%nat
        with (S (2 * (len (String c rest) - len r) - 1)) by lia. }
    pose proof (skip_ws_length rest) as Hws.
    destruct (ord c =? 34) eqn:Hq.
    { destruct (scanstring rest) as [[k r0]|] eqn:Hk; [|done].
      cbn in Hs. simplify_eq. apply scanstring_length in Hk as Hlt.
      apply Hfin; [cbn [String.length]; lia|].
      cbn [scan_once]. by rewrite Hq, Hk. }
    destruct (ord c =? 123) eqn:Hb.
    { destruct (skip_ws rest) as [|c1 rest1] eqn:Hsk; [done|].
      cbn [String.length] in Hws.
      destruct (ord c1 =? 125) eqn:Hc1.
      { simplify_eq. apply Hfin; [cbn [String.length]; lia|].
        cbn [scan_once]. by rewrite Hq, Hb, Hsk, Hc1. }
      destruct (ord c1 =? 34) eqn:Hc2; [|done].
      apply IHm in Hs as [Hlt Hs].
      apply Hfin; [cbn [String.length]; lia|].
      cbn [scan_once]. rewrite Hq, Hb, Hsk, Hc1, Hc2.
      eapply Mm; [done|]. cbn [String.length]. lia. }
    destruct (ord c =? 91) eqn:Hl.
    { destruct (skip_ws rest) as [|c1 rest1] eqn:Hsk; [done|].
      cbn [String.length] in Hws.
      destruct (ord c1 =? 93) eqn:Hc1.
      { simplify_eq. apply Hfin; [cbn [String.length]; lia|].
        cbn [scan_once]. by rewrite Hq, Hb, Hl, Hsk, Hc1. }
      apply IHe in Hs as [Hlt Hs]. cbn [String.length] in Hlt.
      apply Hfin; [cbn [String.length]; lia|].
      cbn [scan_once]. rewrite Hq, Hb, Hl, Hsk, Hc1.
      eapply Me; [done|]. cbn [String.length]. lia. }
    apply scan_atom_length in Hs as Hlt.
    apply Hfin; [done|]. cbn [scan_once]. by rewrite Hq, Hb, Hl.
  - intros acc s v r Hs. cbn [scan_elements] in Hs.
    destruct (scan_once fuel s) as [[v1 r1]|] eqn:Ho; [|done].
    apply IHo in Ho as [Hlt1 Ho].
    pose proof (skip_ws_length r1) as Hws1.
    destruct (skip_ws r1) as [|c r2] eqn:Hsk; [done|].
    cbn [String.length] in Hws1.
    replace (2 * (len s - len r) + 1)%nat with (S (2 * (len s - len r))) by lia.
    destruct (ord c =? 93) eqn:Hc1.
    { simplify_eq. split; [lia|]. cbn [scan_elements].
      rewrite (Mo _ (2 * (len s - len r))%nat _ _ Ho) by lia.
      by rewrite Hsk, Hc1. }
    destruct (ord c =? 44) eqn:Hc2; [|done].
    apply IHe in Hs as [Hlt Hs].
    pose proof (skip_ws_length r2) as Hws2.
    split; [lia|]. cbn [scan_elements].
    rewrite (Mo _ (2 * (len s - len r))%nat _ _ Ho) by lia.
    rewrite Hsk, Hc1, Hc2. eapply Me; [done|]. lia.
  - intros acc s v r Hs. cbn [scan_members] in Hs.
    destruct (scanstring s) as [[k r0]|] eqn:Hk; [|done].
    apply scanstring_length in Hk as Hlt0.
    pose proof (skip_ws_length r0) as Hws0.
    destruct (skip_ws r0) as [|c r1] eqn:Hsk0; [done|].
    cbn [String.length] in Hws0.
    destruct (ord c =? 58) eqn:Hc; [|done].
    pose proof (skip_ws_length r1) as Hws1.
    destruct (scan_once fuel (skip_ws r1)) as [[v1 r2]|] eqn:Ho; [|done].
    apply IHo in Ho as [Hlt2 Ho].
    pose proof (skip_ws_length r2) as Hws2.
    destruct (skip_ws r2) as [|c2 r3] eqn:Hsk2; [done|].
    cbn [String.length] in Hws2.
    replace (2 * (len s - len r) + 1)%nat with (S (2 * (len s - len r))) by lia.
    destruct (ord c2 =? 125) eqn:Hc2.
    { simplify_eq. split; [lia|]. cbn [scan_members].
      rewrite Hk, Hsk0, Hc.
      rewrite (Mo _ (2 * (len s - len r))%nat _ _ Ho) by lia.
      by rewrite Hsk2, Hc2. }
    destruct (ord c2 =? 44) eqn:Hc3; [|done].
    pose proof (skip_ws_length r3) as Hws3.
    destruct (skip_ws r3) as [|c3 r4] eqn:Hsk3; [done|].
    cbn [String.length] in Hws3.
    destruct (ord c3 =? 34) eqn:Hc4; [|done].
    apply IHm in Hs as [Hlt Hs].
    split; [lia|]. cbn [scan_members].
    rewrite Hk, Hsk0, Hc.
    rewrite (Mo _ (2 * (len s - len r))%nat _ _ Ho) by lia.
    rewrite Hsk2, Hc2, Hc3, Hsk3, Hc4. eapply Mm; [done|]. lia.
Qed.

(** [loads] never fails for lack of fuel: a value that some amount of fuel
    finds is the value [loads] returns. *)
Lemma loads_fuel_adequate fuel text v r :
  scan_once fuel (skip_ws text) = Some (v, r) →
  skip_ws r = EmptyString →
  loads text = Some v.
Proof.
  intros Hs Hr. unfold loads.
  apply (proj1 (scan_bound fuel)) in Hs as [Hlt Hs].
  pose proof (skip_ws_length text).
  rewrite (proj1 (scan_mono _) _ _ (2 * len text + 2)%nat Hs) by lia.
  by rewrite Hr.
Qed.

(** The decoder on texts that [save_store] did not write. *)
Example loads_compact :
  loads ("{" +:+ encode_string "cli" +:+ ":" +:+ encode_string "asst_1"
         +:+ ", " +:+ encode_string "n" +:+ ": [1, -2.5e3, null, true]}"
         +:+ NL)
  = Some (JDict [("cli", JString "asst_1");
                 ("n", JList [JNumber "1"; JNumber "-2.5e3"; JNull;
                              JBool true])]).
Proof. reflexivity. Qed.

Example loads_repeated_key :
  loads ("{" +:+ encode_string "cli" +:+ ": 1, " +:+ encode_string "web"
         +:+ ": 2, " +:+ encode_string "cli" +:+ ": 3}")
  = Some (JDict [("cli", JNumber "3"); ("web", JNumber "2")]).
Proof. reflexivity. Qed.

Example loads_escapes :
  loads (String dquote "a\u00e9\n\/\\" +:+ String dquote EmptyString)
  = Some (JString (String "a" (String "233" (String "010" "/\")))).
Proof. reflexivity. Qed.

Example loads_refused :
  loads EmptyString = None ∧ loads "{" = None ∧ loads "[1,]" = None ∧
  loads "nul" = None ∧ loads "01" = None ∧ loads "{} {}" = None ∧
  loads (String dquote (String "009" (String dquote EmptyString))) = None.
Proof. by split_and!. Qed.

End FuelFacts.

(** ** The registry: round trip and written form *)

Module RegistryFacts.
Import PyStr Py Json Common StrFacts JsonFacts.




Definition sample_store : Value :=
  dict_of [("web", "asst_2"); ("cli", "asst_1")].





(** The text written for the sample registry. *)
Example sample_registry_text :
  CreateAgent.save_store (repr:=fun lit => lit) sample_store
  = Some ("{" +:+ NL +:+ "  " +:+ String dquote "cli" +:+ String dquote ": "
          +:+ String dquote "asst_1" +:+ String dquote ("," +:+ NL)
          +:+ "  " +:+ String dquote "web" +:+ String dquote ": "
          +:+ String dquote "asst_2" +:+ String dquote NL +:+ "}").
Proof. reflexivity. Qed.



End RegistryFacts.

(** ** create-agent.py *)

Module CreateAgentFacts.
Import PyStr Py Json Sdk Common CreateAgent StrFacts JsonFacts RegistryFacts.

Section provisioner.
Context {repr : NumberRepr}.

(** The arguments [main] works with, once [--name] is given. *)
Definition namespace_of (argv : Argv) (environ : gmap string string)
  (n : string) : Namespace :=
  {| name := n;
     model := opt_model argv;
     mcp_url :=
       default (default "https://gitmcp.io/Azure/azure-rest-api-specs"
                        (environ !! "MCP_SERVER_URL"))
               (opt_mcp_url argv);
     mcp_label :=
       default (default "github" (environ !! "MCP_SERVER_LABEL"))
               (opt_mcp_label argv) |}.

(** The one remote call of the provisioner. *)
Definition creation (args : Namespace) (model : string) : Event :=
  Remote (create_agent model (name args) INSTRUCTIONS
            (definitions {| tool_server_label := mcp_label args;
                            tool_server_url := mcp_url args |})).

Lemma create_done argv environ created args agent tr :
  create argv environ created = (Done (args, agent), tr) →
  ∃ n model endpoint,
    opt_name argv = Some n ∧
    required (py_or (opt_model argv) (environ !! "MODEL_DEPLOYMENT_NAME"))
      = Some model ∧
    required (environ !! "PROJECT_ENDPOINT") = Some endpoint ∧
    created = Ok agent ∧
    args = namespace_of argv environ n ∧
    tr = [creation args model].
Proof.
  unfold create, parse_args. intros Hc.
  destruct (opt_name argv) as [n|] eqn:Hn; [|done].
  cbn in Hc.
  destruct (required (py_or _ _)) as [model|] eqn:Hmodel; [|done].
  destruct (required (environ !! _)) as [endpoint|] eqn:Hend; [|done].
  destruct created as [a|text]; [|done]. cbn in Hc. simplify_eq.
  exists n, model, endpoint. by split_and!.
Qed.


Lemma main_done argv environ dotenv file created tr file' :
  main argv environ dotenv file created = ((Done tt, tr), file') →
  ∃ n model endpoint agent store,
    let environ' := load_dotenv dotenv environ in
    let args := namespace_of argv environ' n in
    opt_name argv = Some n ∧
    required (py_or (opt_model argv) (environ' !! "MODEL_DEPLOYMENT_NAME"))
      = Some model ∧
    required (environ' !! "PROJECT_ENDPOINT") = Some endpoint ∧
    created = Ok agent ∧
    setitem (load_store file) n (JString (id agent)) = Some store ∧
    file' = save_store store ∧
    tr = [creation args model;
          Print ("Created agent '" +:+ n +:+ "' with ID: " +:+ id agent);
          Print ("Stored mapping in " +:+ AGENT_STORE_FILE)].
Proof.
  unfold main. intros Hm.
  destruct (create argv _ created) as [[[args agent]|e|] tr0] eqn:Hc; [|done..].
  apply create_done in Hc as (n & model & endpoint & Hn & Hmodel & Hend & -> & -> & ->).
  cbn [name namespace_of] in Hm.
  destruct (setitem _ n _) as [store|] eqn:Hset; [|done]. simplify_eq.
  by exists n, model, endpoint, agent, store.
Qed.



(** Every run that succeeds made one remote call, [create_agent] with the
    model, the name, [INSTRUCTIONS] and the definitions of the tool. *)
Lemma main_done_calls argv environ dotenv file created tr file' :
  main argv environ dotenv file created = ((Done tt, tr), file') →
  ∃ n model,
    let environ' := load_dotenv dotenv environ in
    opt_name argv = Some n ∧
    required (py_or (opt_model argv) (environ' !! "MODEL_DEPLOYMENT_NAME"))
      = Some model ∧
    remote_calls tr = [creation (namespace_of argv environ' n) model].
Proof.
  intros Hmain.
  apply main_done in Hmain
    as (n & model & endpoint & agent & store & Hn & Hmodel & _ & _ & _ & _ & ->).
  by exists n, model.
Qed.



End provisioner.

(** The prompt as the specification words it. *)
Definition SPEC_INSTRUCTIONS : string :=
  "You are a helpful agent that can use the available tools to answer "
  +:+ "questions and perform tasks".

Definition sample_argv : Argv :=
  {| opt_name := Some "cli"; opt_model := None;
     opt_mcp_url := None; opt_mcp_label := None |}.

Definition sample_environ : gmap string string :=
  {[ "PROJECT_ENDPOINT" := "https://project.example" ]}.

Definition sample_dotenv : gmap string string :=
  {[ "MODEL_DEPLOYMENT_NAME" := "gpt-4o" ]}.

Definition sample_file : option string :=
  save_store (repr:=fun lit => lit) sample_store.

Definition sample_run : Action unit * option string :=
  main (repr:=fun lit => lit) sample_argv sample_environ sample_dotenv
       sample_file (Ok {| id := "asst_9" |}).



(** The registry the sample run leaves. *)
Example sample_run_file :
  sample_run.2
  = Some ("{" +:+ NL +:+ "  " +:+ String dquote "cli" +:+ String dquote ": "
          +:+ String dquote "asst_9" +:+ String dquote ("," +:+ NL)
          +:+ "  " +:+ String dquote "web" +:+ String dquote ": "
          +:+ String dquote "asst_2" +:+ String dquote NL +:+ "}").
Proof. vm_compute. reflexivity. Qed.


(** C8, as stated, fails: the sample run succeeds, and no call of it passes
    the prompt of the specification. *)
Lemma instructions_not_as_specified :
  sample_run.1.1 = Done tt ∧
  ¬ ∃ model name tools,
      In (Remote (create_agent model name SPEC_INSTRUCTIONS tools))
         sample_run.1.2.
Proof.
  split; [by vm_compute|].
  intros (model & name & tools & Hin). vm_compute in Hin.
  destruct Hin as [Heq|[Heq|[Heq|[]]]]; discriminate Heq.
Qed.

(** C8, amended. Every provisioning run that succeeds made exactly one
    remote call: [create_agent] with the resolved model, the given name, the
    definitions of the tool built from the label and the URL, and as
    instructions the fixed prompt of the script, which reads
    [You are a helpful agent that can use MCP tools to assist users. Use the
    available MCP tools to answer questions and perform tasks.] *)
Theorem create_agent_request {repr : NumberRepr}
  argv environ dotenv file created tr file' :
  main argv environ dotenv file created = ((Done tt, tr), file') →
  ∃ n model,
    let environ' := load_dotenv dotenv environ in
    opt_name argv = Some n ∧
    required (py_or (opt_model argv) (environ' !! "MODEL_DEPLOYMENT_NAME"))
      = Some model ∧
    remote_calls tr =
      [Remote (create_agent model n
         ("You are a helpful agent that can use MCP tools to assist users. "
          +:+ "Use the available MCP tools to answer questions and "
          +:+ "perform tasks.")
         (definitions
            {| tool_server_label :=
                 default (default "github" (environ' !! "MCP_SERVER_LABEL"))
                         (opt_mcp_label argv);
               tool_server_url :=
                 default
                   (default "https://gitmcp.io/Azure/azure-rest-api-specs"
                            (environ' !! "MCP_SERVER_URL"))
                   (opt_mcp_url argv) |}))].
Proof. apply main_done_calls. Qed.

Lemma create_agent_request_witness :
  ∃ n model,
    let environ' := load_dotenv sample_dotenv sample_environ in
    opt_name sample_argv = Some n ∧
    required (py_or (opt_model sample_argv)
                    (environ' !! "MODEL_DEPLOYMENT_NAME")) = Some model ∧
    remote_calls sample_run.1.2 =
      [Remote (create_agent model n
         ("You are a helpful agent that can use MCP tools to assist users. "
          +:+ "Use the available MCP tools to answer questions and "
          +:+ "perform tasks.")
         (definitions
            {| tool_server_label :=
                 default (default "github" (environ' !! "MCP_SERVER_LABEL"))
                         (opt_mcp_label sample_argv);
               tool_server_url :=
                 default
                   (default "https://gitmcp.io/Azure/azure-rest-api-specs"
                            (environ' !! "MCP_SERVER_URL"))
                   (opt_mcp_url sample_argv) |}))].
Proof.
  apply (create_agent_request (repr:=fun lit => lit)
           sample_argv sample_environ sample_dotenv sample_file
           (Ok {| id := "asst_9" |}) sample_run.1.2 sample_run.2).
  vm_compute. reflexivity.
Defined.

End CreateAgentFacts.

(** ** run-agent.py *)

Module StripFacts.
Import PyStr StrFacts.

Lemma lstrip_blank s : blank s = true → lstrip s = EmptyString.
Proof.
  induction s as [|c s IH]; [done|]. cbn [blank lstrip].
  intros [Hc Hs]%andb_prop. rewrite Hc. auto.
Qed.

Lemma rstrip_blank s : blank s = true → rstrip s = EmptyString.
Proof.
  induction s as [|c s IH]; [done|]. cbn [blank rstrip].
  intros [Hc Hs]%andb_prop. by rewrite IH, Hc.
Qed.

Lemma strip_blank s : blank s = true → strip s = EmptyString.
Proof. intros Hs. unfold strip. by rewrite lstrip_blank. Qed.

Lemma lstrip_app_blank ws s : blank ws = true → lstrip (ws +:+ s) = lstrip s.
Proof.
  induction ws as [|c ws IH]; [done|]. cbn [blank].
  intros [Hc Hs]%andb_prop. rewrite str_app_cons. cbn [lstrip]. rewrite Hc. auto.
Qed.

Lemma rstrip_app_blank s ws : blank ws = true → rstrip (s +:+ ws) = rstrip s.
Proof.
  intros Hws. induction s as [|c s IH].
  - rewrite str_app_nil_l. by apply rstrip_blank.
  - rewrite str_app_cons. cbn [rstrip]. by rewrite IH.
Qed.

Lemma lstrip_app s t :
  lstrip (s +:+ t) = if blank s then lstrip t else lstrip s +:+ t.
Proof.
  induction s as [|c s IH]; [done|].
  rewrite str_app_cons. cbn [lstrip blank].
  destruct (isspace c); [|done]. by rewrite IH.
Qed.

(** White space around a text does not change what [strip] returns. *)
Lemma strip_padded ws1 s ws2 :
  blank ws1 = true → blank ws2 = true →
  strip (ws1 +:+ s +:+ ws2) = strip s.
Proof.
  intros H1 H2. unfold strip. rewrite lstrip_app_blank by done.
  rewrite lstrip_app. destruct (blank s) eqn:Hs.
  - by rewrite (lstrip_blank s), (lstrip_blank ws2).
  - by rewrite rstrip_app_blank.
Qed.

Lemma isspace_lower_char c : isspace c = true → lower_char c = c.
Proof. destruct c as [[] [] [] [] [] [] [] []]; (reflexivity || discriminate). Qed.

Lemma lower_char_not_space c :
  isspace (lower_char c) = false → isspace c = false.
Proof.
  intros Hl. destruct (isspace c) eqn:Hc; [|done].
  by rewrite (isspace_lower_char c Hc), Hc in Hl.
Qed.

Lemma strip_ends c s d :
  isspace c = false → isspace d = false →
  strip (String c (s +:+ String d EmptyString))
  = String c (s +:+ String d EmptyString).
Proof.
  intros Hc Hd. unfold strip. cbn [lstrip]. rewrite Hc.
  assert (∀ t, rstrip (t +:+ String d EmptyString) = t +:+ String d EmptyString)
    as Hr.
  { induction t as [|a t IH].
    - rewrite str_app_nil_l. cbn [rstrip]. by rewrite Hd.
    - rewrite str_app_cons. cbn [rstrip]. rewrite IH. by destruct t. }
  apply (Hr (String c s)).
Qed.

Lemma strip_single c :
  isspace c = false → strip (String c EmptyString) = String c EmptyString.
Proof. intros Hc. unfold strip. cbn [lstrip]. rewrite Hc. cbn [rstrip]. by rewrite Hc. Qed.

End StripFacts.

Module PyFacts.
Import Py.

Section actions.
Context {Event : Type}.

Lemma bind_emit {A} (e : Event) (m : Action A) :
  (emit e;; m) = after [e] m.
Proof. by destruct m. Qed.

Lemma bind_done {A B} (a : A) (tr : list Event) (k : A → Action B) :
  ((Done a, tr) ≫= k) = after tr (k a).
Proof. cbn. by destruct (k a). Qed.

Lemma bind_outcome {A B} (m : Action (Event:=Event) A) (k : A → Action B) o tr :
  (m ≫= k) = (Done o, tr) →
  ∃ a tr1 tr2, m = (Done a, tr1) ∧ k a = (Done o, tr2) ∧ tr = tr1 ++ tr2.
Proof.
  destruct m as [[a| |] tr1]; cbn; [|done..].
  destruct (k a) as [o' tr2] eqn:Hk. intros [= -> <-]. by exists a, tr1, tr2.
Qed.

Lemma bind_trace {A B} (m : Action (Event:=Event) A) (k : A → Action B)
  (P : Event → Prop) :
  Forall P m.2 → (∀ a, Forall P (k a).2) → Forall P (m ≫= k).2.
Proof.
  intros Hm Hk. destruct m as [[a| |] tr1]; cbn in *; [|done..].
  specialize (Hk a). destruct (k a) as [o' tr2]. cbn in *.
  by apply Forall_app.
Qed.

End actions.
End PyFacts.

Module RunAgentFacts.
Import PyStr Py Json Sdk Common RunAgent StrFacts JsonFacts StripFacts PyFacts.

Ltac lower_chars H :=
  repeat match type of H with
  | lower ?s = _ => destruct s; cbn [lower] in H; [discriminate H|]
  | String _ _ = String _ _ =>
      let Hc := fresh "Hc" in injection H as Hc H
  end.

(** A quit command, in whatever case, has no white space at its ends. *)
Lemma strip_quit_command s : lower s ∈ QUIT_COMMANDS → strip s = s.
Proof.
  unfold QUIT_COMMANDS. rewrite !elem_of_cons, elem_of_nil.
  assert (∀ c d, lower_char c = d → isspace d = false → isspace c = false)
    as Hns by (intros c d <-; apply lower_char_not_space).
  intros [H|[H|[H|[]]]]; lower_chars H; destruct s; try discriminate H.
  - apply (strip_ends _ (String _ (String _ (String _ EmptyString)))); eauto.
  - apply (strip_ends _ EmptyString); eauto.
  - apply (strip_ends _ (String _ (String _ (String _ EmptyString)))); eauto.
Qed.


Lemma truthy_quit_command s : lower s ∈ QUIT_COMMANDS → truthy s = true.
Proof.
  unfold QUIT_COMMANDS. rewrite !elem_of_cons, elem_of_nil.
  intros [H|[H|[H|[]]]]; by destruct s.
Qed.

(** Neither a sleep nor a fetch of the run. *)
Definition quiet (e : Event) : Prop :=
  match e with
  | Sleep _ => False
  | Remote (runs_get _ _) => False
  | _ => True
  end.

(** A trace in which the loop sleeps one unit right before each fetch of the
    run, and at no other time. *)
Inductive paced : list Event → Prop :=
| paced_nil : paced []
| paced_fetch th r rest :
    paced rest → paced (Sleep 1 :: Remote (runs_get th r) :: rest)
| paced_quiet e rest : quiet e → paced rest → paced (e :: rest).

Lemma paced_app_quiet l1 l2 : Forall quiet l1 → paced l2 → paced (l1 ++ l2).
Proof. induction 1; cbn; [done|]. intros. by apply paced_quiet; auto. Qed.

Section runner.
Context {show_status : Show RunStatus}
        {show_tool_call : Show RequiredToolCall}
        {show_error : Show RunError}
        {show_value : Show Value}
        {show_decode_error : Show JSONDecodeError}.

(** The events of the polling loop. *)
Inductive poll_event : Event → Prop :=
| poll_sleep : poll_event (Sleep 1)
| poll_fetch th r : poll_event (Remote (runs_get th r))
| poll_submit th r approvals :
    poll_event (Remote (runs_submit_tool_outputs th r approvals))
| poll_approving text :
    poll_event (Print ("Approving MCP tool call: " +:+ text))
| poll_status text : poll_event (Print ("  Status: " +:+ text)).

Lemma collect_approvals_events tool_calls approvals :
  Forall poll_event (collect_approvals tool_calls approvals).2.
Proof.
  revert approvals. induction tool_calls as [|tc rest IH]; intros approvals.
  - constructor.
  - destruct tc; cbn [collect_approvals]; [|apply IH].
    apply bind_trace; [|intros; apply IH].
    cbn. repeat constructor.
Qed.

Lemma handle_approvals_events thread_id run submitted :
  Forall poll_event (handle_approvals thread_id run submitted).2.
Proof.
  unfold handle_approvals.
  destruct (status run); try by constructor.
  destruct (required_action run) as [[tool_calls|tool_calls]|]; try by constructor.
  apply bind_trace; [apply collect_approvals_events|].
  intros [|a approvals]; [constructor|].
  destruct submitted as [|[r|text] rest]; cbn; repeat constructor.
Qed.

Lemma poll_events thread_id fetched : ∀ submitted run,
  Forall poll_event (poll thread_id fetched submitted run).2.
Proof.
  induction fetched as [|reply fetched IH]; intros submitted run;
    cbn [poll]; destruct (polling (status run)); try by repeat constructor.
  apply bind_trace; [by repeat constructor|]. intros _.
  apply bind_trace; [destruct reply; by repeat constructor|]. intros run'.
  apply bind_trace; [apply handle_approvals_events|]. intros submitted'.
  apply bind_trace; [by repeat constructor|]. intros _. apply IH.
Qed.

(** On a status outside the polling set the loop does nothing. *)
Lemma poll_terminal thread_id fetched submitted run :
  polling (status run) = false →
  poll thread_id fetched submitted run = (Done run, []).
Proof. intros Hp. destruct fetched; cbn [poll]; by rewrite Hp. Qed.

(** The loop ends on a status outside the polling set only. *)
Lemma poll_done thread_id fetched : ∀ submitted run run' tr,
  poll thread_id fetched submitted run = (Done run', tr) →
  polling (status run') = false.
Proof.
  induction fetched as [|reply fetched IH]; intros submitted run run' tr;
    cbn [poll]; destruct (polling (status run)) eqn:Hp; try done.
  - intros [= <- _]. done.
  - intros (_ & _ & tr2 & _ & H2 & _)%bind_outcome.
    apply bind_outcome in H2 as (r1 & _ & tr3 & _ & H3 & _).
    apply bind_outcome in H3 as (s1 & _ & tr4 & _ & H4 & _).
    apply bind_outcome in H4 as (_ & _ & tr5 & _ & H5 & _).
    by eapply IH.
  - intros [= <- _]. done.
Qed.

(** No event of the polling loop prints a line that starts with a line
    break, as the reply of the assistant does. *)
Lemma poll_event_no_reply e text :
  poll_event e → e ≠ Print (String newline text).
Proof. by destruct 1. Qed.

Lemma collect_approvals_quiet tool_calls approvals :
  Forall quiet (collect_approvals tool_calls approvals).2.
Proof.
  revert approvals. induction tool_calls as [|tc rest IH]; intros approvals.
  - constructor.
  - destruct tc; cbn [collect_approvals]; [|apply IH].
    apply bind_trace; [|intros; apply IH]. by repeat constructor.
Qed.

Lemma handle_approvals_quiet thread_id run submitted :
  Forall quiet (handle_approvals thread_id run submitted).2.
Proof.
  unfold handle_approvals.
  destruct (status run); try by constructor.
  destruct (required_action run) as [[tool_calls|tool_calls]|]; try by constructor.
  apply bind_trace; [apply collect_approvals_quiet|].
  intros [|a approvals]; [constructor|].
  destruct submitted as [|[r|text] rest]; cbn; by repeat constructor.
Qed.

(** Whatever the service answers, the polling loop sleeps one unit before
    each fetch and only then. *)
Lemma poll_paced thread_id fetched : ∀ submitted run,
  paced (poll thread_id fetched submitted run).2.
Proof.
  induction fetched as [|reply fetched IH]; intros submitted run;
    cbn [poll]; destruct (polling (status run)); try by repeat constructor.
  destruct reply as [run'|text]; [|by repeat constructor].
  cbn.
  pose proof (handle_approvals_quiet thread_id run' submitted) as Hq.
  destruct (handle_approvals thread_id run' submitted) as [[submitted'| |] tr1];
    cbn in *.
  - specialize (IH submitted' run').
    destruct (poll thread_id fetched submitted' run') as [o tr2]. cbn in *.
    apply paced_fetch, paced_app_quiet; [done|]. by apply paced_quiet.
  - apply paced_fetch. rewrite <- (app_nil_r tr1).
    apply paced_app_quiet; [done|constructor].
  - apply paced_fetch. rewrite <- (app_nil_r tr1).
    apply paced_app_quiet; [done|constructor].
Qed.

Lemma last_assistant_find reversed :
  last_assistant reversed
  = msg ← List.find has_agent_text reversed; last (text_messages msg).
Proof.
  induction reversed as [|msg older IH]; [done|].
  cbn [last_assistant List.find]. unfold has_agent_text at 1.
  destruct (role msg); [exact IH|].
  destruct (text_messages msg) as [|t ts] eqn:Ht; [exact IH|].
  cbn [mbind option_bind]. rewrite Ht.
  by destruct (last (t :: ts)) eqn:Hlast; [|apply last_None in Hlast].
Qed.

(** The scan of the script selects what the specification describes. *)
Lemma last_assistant_reply_text messages :
  last_assistant (reverse messages) = reply_text messages.
Proof. apply last_assistant_find. Qed.

Lemma turn_failed thread_id agent_id user_input t message run0 run tr :
  created_message t = Ok message → created_run t = Ok run0 →
  poll thread_id (fetched_runs t) (submitted t) run0 = (Done run, tr) →
  status run = FAILED →
  turn thread_id agent_id user_input t
  = (Done tt,
     turn_start thread_id agent_id user_input message run0 ++ tr
     ++ [Print ("Run failed: " +:+ str (last_error run))]).
Proof.
  intros Hm Hr Hp Hs. unfold turn. rewrite Hm, Hr. cbn. rewrite Hp. cbn.
  rewrite bool_decide_true by done. cbn. by rewrite <- ?app_assoc.
Qed.

Lemma turn_replied thread_id agent_id user_input t message run0 run tr
  messages run_steps :
  created_message t = Ok message → created_run t = Ok run0 →
  poll thread_id (fetched_runs t) (submitted t) run0 = (Done run, tr) →
  status run ≠ FAILED →
  listed_messages t = Ok messages → listed_steps t = Ok run_steps →
  turn thread_id agent_id user_input t
  = (Done tt,
     turn_start thread_id agent_id user_input message run0 ++ tr
     ++ [Remote (messages_list thread_id ASCENDING)]
     ++ reply_events messages
     ++ [Remote (run_steps_list thread_id (run_id run))]
     ++ tool_notes run_steps).
Proof.
  intros Hm Hr Hp Hs Hl Hst. unfold turn. rewrite Hm, Hr. cbn. rewrite Hp. cbn.
  rewrite bool_decide_false by done. rewrite Hl, Hst. cbn.
  unfold reply_events. rewrite last_assistant_reply_text.
  destruct (reply_text messages) as [text|]; [destruct (truthy text)|];
    cbn; by rewrite <- ?app_assoc.
Qed.

Lemma repl_eof thread_id agent_id turns :
  repl thread_id agent_id [] turns
  = (Done tt, [Prompt "> "; Print EmptyString]).
Proof. reflexivity. Qed.

Lemma repl_blank thread_id agent_id line stdin turns :
  strip line = EmptyString →
  repl thread_id agent_id (line :: stdin) turns
  = after [Prompt "> "] (repl thread_id agent_id stdin turns).
Proof. intros Hb. cbn [repl]. rewrite Hb. cbn [truthy negb]. apply bind_emit. Qed.

Lemma repl_quit thread_id agent_id line stdin turns :
  lower (strip line) ∈ QUIT_COMMANDS →
  repl thread_id agent_id (line :: stdin) turns = (Done tt, [Prompt "> "]).
Proof.
  intros Hq. cbn [repl]. rewrite (truthy_quit_command _ Hq). cbn [negb].
  by rewrite bool_decide_true.
Qed.

Lemma repl_turn thread_id agent_id line stdin t turns :
  truthy (strip line) = true → lower (strip line) ∉ QUIT_COMMANDS →
  repl thread_id agent_id (line :: stdin) (t :: turns)
  = after [Prompt "> "]
      (turn thread_id agent_id (strip line) t;;
       repl thread_id agent_id stdin turns).
Proof.
  intros Ht Hq. cbn [repl]. rewrite Ht. cbn [negb].
  rewrite bool_decide_false by done. apply bind_emit.
Qed.

(** Every round of the loop starts with the prompt. *)
Lemma repl_prompts thread_id agent_id stdin turns :
  ∃ tr, (repl thread_id agent_id stdin turns).2 = Prompt "> " :: tr.
Proof.
  destruct stdin as [|line stdin]; [by eexists|]. cbn [repl].
  rewrite bind_emit. by eexists.
Qed.


(** What [main] does once the registry, the name and the endpoint are
    found and the service knows the agent: the session. *)
Lemma main_session argv environ dotenv text w n store agent_id endpoint a th :
  opt_name argv = Some n →
  loads text = Some store →
  py_in n store = Some true →
  getitem store n = Some agent_id →
  required (load_dotenv dotenv environ !! "PROJECT_ENDPOINT") = Some endpoint →
  agent w = Ok a → thread w = Ok th →
  main argv environ dotenv (Some text) w
  = after [Remote (get_agent agent_id); Remote threads_create;
           Print ("Session thread ID: " +:+ thread_id th);
           Print ("Type messages. Use :quit to exit." +:+ NL)]
      (repl (thread_id th) agent_id (stdin w) (turns w);;
       print "Exiting. (Agent not deleted; reuse with another session.)").
Proof.
  intros Hn Hl Hin Hget Hend Ha Hth. unfold main, parse_args, load_store.
  rewrite Hn, Hl. cbn. rewrite Hin, Hget, Hend, Ha, Hth. cbn.
  by destruct (repl _ _ _ _) as [[[]| |] tr].
Qed.

(** C7. In the loop of the runner: an empty line (more generally a line
    that strips to nothing) is followed by the next prompt, with no remote
    call and no scripted answer used; a line that is [:quit], [:q] or
    [:exit] in whatever letter case ends the loop at once, whatever input
    and answers are left; so does the end of input; and a session that
    meets such a line first makes no remote call after its start. *)
Theorem input_line_handling thread_id agent_id :
  (∀ line stdin turns, strip line = EmptyString →
     repl thread_id agent_id (line :: stdin) turns
     = after [Prompt "> "] (repl thread_id agent_id stdin turns) ∧
     ∃ tr, (repl thread_id agent_id stdin turns).2 = Prompt "> " :: tr) ∧
  (∀ line stdin turns, lower line ∈ QUIT_COMMANDS →
     repl thread_id agent_id (line :: stdin) turns
     = (Done tt, [Prompt "> "])) ∧
  (∀ turns,
     repl thread_id agent_id [] turns
     = (Done tt, [Prompt "> "; Print EmptyString])) ∧
  (∀ argv environ dotenv text w n store endpoint a th line stdin',
     opt_name argv = Some n → loads text = Some store →
     py_in n store = Some true → getitem store n = Some agent_id →
     required (load_dotenv dotenv environ !! "PROJECT_ENDPOINT")
       = Some endpoint →
     agent w = Ok a → thread w = Ok th →
     stdin w = line :: stdin' → lower line ∈ QUIT_COMMANDS →
     main argv environ dotenv (Some text) w
     = (Done tt,
        [Remote (get_agent agent_id); Remote threads_create;
         Print ("Session thread ID: " +:+ Sdk.thread_id th);
         Print ("Type messages. Use :quit to exit." +:+ NL);
         Prompt "> ";
         Print "Exiting. (Agent not deleted; reuse with another session.)"])).
Proof.
  split_and!.
  - intros line stdin turns Hb. split; [by apply repl_blank|].
    apply repl_prompts.
  - intros line stdin turns Hq. apply repl_quit.
    by rewrite (strip_quit_command line Hq).
  - intros turns. apply repl_eof.
  - intros argv environ dotenv text w n store endpoint a th line stdin'
      Hn Hl Hin Hget Hend Ha Hth Hstdin Hq.
    rewrite (main_session argv environ dotenv text w n store agent_id endpoint
               a th) by done.
    rewrite Hstdin, repl_quit; [done|].
    by rewrite (strip_quit_command line Hq).
Qed.

(** C10. The loop strips a line before anything else: a line of white
    space only is handled as the empty line, and a quit command with white
    space around it, in whatever letter case, ends the loop as the bare
    command does. *)
Theorem input_line_stripped thread_id agent_id :
  (∀ line stdin turns, blank line = true →
     repl thread_id agent_id (line :: stdin) turns
     = after [Prompt "> "] (repl thread_id agent_id stdin turns)) ∧
  (∀ ws1 command ws2 stdin turns,
     blank ws1 = true → blank ws2 = true →
     lower command ∈ QUIT_COMMANDS →
     repl thread_id agent_id ((ws1 +:+ command +:+ ws2) :: stdin) turns
     = (Done tt, [Prompt "> "]) ∧
     repl thread_id agent_id ((ws1 +:+ command +:+ ws2) :: stdin) turns
     = repl thread_id agent_id (command :: stdin) turns) ∧
  (∀ stdin turns,
     repl thread_id agent_id ("  :QUIT  " :: stdin) turns
     = (Done tt, [Prompt "> "])).
Proof.
  split_and!.
  - intros line stdin turns Hb. apply repl_blank. by apply strip_blank.
  - intros ws1 command ws2 stdin turns H1 H2 Hq.
    assert (lower (strip (ws1 +:+ command +:+ ws2)) ∈ QUIT_COMMANDS) as Hq'.
    { rewrite strip_padded by done. by rewrite strip_quit_command. }
    rewrite (repl_quit _ _ _ _ _ Hq'). split; [done|].
    symmetry. apply repl_quit. by rewrite strip_quit_command.
  - intros stdin turns. apply repl_quit.
    apply (bool_decide_unpack _). by vm_compute.
Qed.


(** C1. A turn against the scripted statuses queued, in progress, requires
    action with one pending remote-tool call, completed (the run as created
    being the queued one, or being any run still polled and the four
    statuses being fetched in turn): the loop sleeps one unit before each
    fetch, submits one batch holding the one approval of the pending call
    with [approve = true], fetches no more once the status is completed,
    and then lists the messages and prints the reply of the assistant. *)
Theorem polling_scenario thread_id agent_id user_input message
  run0 e0 a0 run1 e1 a1 run2 e2 call_id call_name call_args run3 e3 a3
  answer more_fetched more_submitted messages run_steps text :
  last_assistant (reverse messages) = Some text → truthy text = true →
  let call := RequiredMcpToolCall call_id call_name call_args in
  let queued :=
    {| run_id := run0; status := QUEUED;
       required_action := a0; last_error := e0 |} in
  let in_progress :=
    {| run_id := run1; status := IN_PROGRESS;
       required_action := a1; last_error := e1 |} in
  let requires_action :=
    {| run_id := run2; status := REQUIRES_ACTION;
       required_action := Some (SubmitToolApprovalAction [call]);
       last_error := e2 |} in
  let completed :=
    {| run_id := run3; status := COMPLETED;
       required_action := a3; last_error := e3 |} in
  let approval := {| tool_call_id := call_id; approve := true |} in
  let polled :=
    [Sleep 1; Remote (runs_get thread_id run0);
     Print ("  Status: " +:+ str IN_PROGRESS);
     Sleep 1; Remote (runs_get thread_id run1);
     Print ("Approving MCP tool call: " +:+ str call +:+ ")");
     Remote (runs_submit_tool_outputs thread_id run2 [approval]);
     Print ("  Status: " +:+ str REQUIRES_ACTION);
     Sleep 1; Remote (runs_get thread_id run2);
     Print ("  Status: " +:+ str COMPLETED)] in
  let answered :=
    [Remote (messages_list thread_id ASCENDING);
     Print (NL +:+ "Assistant:" +:+ NL +:+ text +:+ NL);
     Remote (run_steps_list thread_id run3)] ++ tool_notes run_steps in
  turn thread_id agent_id user_input
    {| created_message := Ok message;
       created_run := Ok queued;
       fetched_runs :=
         Ok in_progress :: Ok requires_action :: Ok completed :: more_fetched;
       submitted := Ok answer :: more_submitted;
       listed_messages := Ok messages;
       listed_steps := Ok run_steps |}
  = (Done tt,
     turn_start thread_id agent_id user_input message queued
     ++ polled ++ answered) ∧
  ∀ created, polling (status created) = true →
    turn thread_id agent_id user_input
      {| created_message := Ok message;
         created_run := Ok created;
         fetched_runs :=
           Ok queued :: Ok in_progress :: Ok requires_action :: Ok completed
           :: more_fetched;
         submitted := Ok answer :: more_submitted;
         listed_messages := Ok messages;
         listed_steps := Ok run_steps |}
    = (Done tt,
       turn_start thread_id agent_id user_input message created
       ++ [Sleep 1; Remote (runs_get thread_id (run_id created));
           Print ("  Status: " +:+ str QUEUED)]
       ++ polled ++ answered).
Proof.
  intros Hreply Htext call queued in_progress requires_action completed
    approval polled answered.
  split.
  - unfold turn. cbn. rewrite Hreply, Htext.
    rewrite (poll_terminal _ _ _ completed) by done. reflexivity.
  - intros created Hc. unfold turn. cbn. rewrite Hc. cbn.
    rewrite Hreply, Htext.
    rewrite (poll_terminal _ _ _ completed) by done. reflexivity.
Qed.

Lemma reply_not_in_turn_start thread_id agent_id user_input message run0 text :
  Print (String newline text)
  ∉ turn_start thread_id agent_id user_input message run0.
Proof.
  unfold turn_start. rewrite !not_elem_of_cons. split_and!; try done.
  apply not_elem_of_nil.
Qed.

(** C4. A turn whose run ends with the status failed prints the last error
    of the run after the polling loop and nothing more: no reply of the
    assistant is printed (the messages are not even listed), the turn
    returns, and the loop goes on with the next line of input. *)
Theorem failed_run_reports_error thread_id agent_id user_input t message
  run0 run tr :
  created_message t = Ok message → created_run t = Ok run0 →
  poll thread_id (fetched_runs t) (submitted t) run0 = (Done run, tr) →
  status run = FAILED →
  turn thread_id agent_id user_input t
  = (Done tt,
     turn_start thread_id agent_id user_input message run0 ++ tr
     ++ [Print ("Run failed: " +:+ str (last_error run))]) ∧
  (∀ text, Print (NL +:+ "Assistant:" +:+ NL +:+ text +:+ NL)
           ∉ (turn thread_id agent_id user_input t).2) ∧
  (∀ order, Remote (messages_list thread_id order)
            ∉ (turn thread_id agent_id user_input t).2) ∧
  (∀ line stdin turns,
     strip line = user_input → truthy user_input = true →
     lower user_input ∉ QUIT_COMMANDS →
     repl thread_id agent_id (line :: stdin) (t :: turns)
     = after (Prompt "> " :: (turn thread_id agent_id user_input t).2)
         (repl thread_id agent_id stdin turns)).
Proof.
  intros Hm Hr Hp Hs.
  pose proof (turn_failed _ agent_id user_input _ _ _ _ _ Hm Hr Hp Hs) as Ht.
  pose proof (poll_events thread_id (fetched_runs t) (submitted t) run0) as He.
  rewrite Hp in He. cbn [snd] in He. rewrite Forall_forall in He.
  split_and!; [done| | |].
  - intros text. rewrite Ht. cbn [snd]. rewrite !elem_of_app.
    intros [Hin|[Hin|Hin]].
    + by apply reply_not_in_turn_start in Hin.
    + by apply He, (poll_event_no_reply _ ("Assistant:" +:+ NL +:+ text +:+ NL))
        in Hin.
    + by apply list_elem_of_singleton in Hin.
  - intros order. rewrite Ht. cbn [snd]. rewrite !elem_of_app.
    intros [Hin|[Hin|Hin]].
    + unfold turn_start in Hin. rewrite !elem_of_cons, elem_of_nil in Hin.
      by destruct Hin as [?|[?|[?|[?|[]]]]].
    + apply He in Hin. inversion Hin.
    + by apply list_elem_of_singleton in Hin.
  - intros line stdin turns Hline Htruthy Hquit. subst user_input.
    rewrite repl_turn by done. rewrite Ht. cbn.
    by destruct (repl _ _ _ _).
Qed.

(** C6, amended. A turn whose run ends with a status that is not failed
    (and, the loop having ended, not polled either) lists the messages of
    the thread in ascending order, and prints as the reply the last text
    segment of the message selected (the first one of the agent with a text
    segment, from the most recent one backward) when that text is not
    empty; it prints no reply when that text is empty or no message is
    selected.  Then it lists the steps of the run. *)
Theorem reply_selection thread_id agent_id user_input t message run0 run tr
  messages run_steps :
  created_message t = Ok message → created_run t = Ok run0 →
  poll thread_id (fetched_runs t) (submitted t) run0 = (Done run, tr) →
  status run ≠ FAILED →
  listed_messages t = Ok messages → listed_steps t = Ok run_steps →
  polling (status run) = false ∧
  turn thread_id agent_id user_input t
  = (Done tt,
     turn_start thread_id agent_id user_input message run0 ++ tr
     ++ [Remote (messages_list thread_id ASCENDING)]
     ++ match selected_message messages with
        | Some msg =>
            match last (text_messages msg) with
            | Some text =>
                if truthy text
                then [Print (NL +:+ "Assistant:" +:+ NL +:+ text +:+ NL)]
                else []
            | None => []
            end
        | None => []
        end
     ++ [Remote (run_steps_list thread_id (run_id run))]
     ++ tool_notes run_steps) ∧
  (∀ msg, selected_message messages = Some msg →
     role msg = AGENT ∧ text_messages msg ≠ [] ∧ msg ∈ messages).
Proof.
  intros Hm Hr Hp Hs Hl Hst. split_and!.
  - by eapply poll_done.
  - rewrite (turn_replied _ agent_id user_input _ _ _ _ _ _ _ Hm Hr Hp Hs Hl Hst).
    unfold reply_events, reply_text.
    by destruct (selected_message messages) as [msg|].
  - intros msg Hsel. unfold selected_message in Hsel.
    apply find_some in Hsel as [Hin Hp']. unfold has_agent_text in Hp'.
    split_and!.
    + by destruct (role msg).
    + by destruct (role msg), (text_messages msg).
    + by apply elem_of_reverse, list_elem_of_In.
Qed.






End runner.

(** *** A sample session *)

Definition sample_show_status : Show RunStatus := fun s =>
  match s with
  | QUEUED => "queued" | IN_PROGRESS => "in_progress"
  | REQUIRES_ACTION => "requires_action" | CANCELLING => "cancelling"
  | CANCELLED => "cancelled" | FAILED => "failed"
  | COMPLETED => "completed" | EXPIRED => "expired"
  end.

Definition sample_show_tool_call : Show RequiredToolCall := tool_call_id_of.
Definition sample_show_error : Show RunError := message.
Definition sample_show_value : Show Value := fun _ => "?".
Definition sample_show_decode_error : Show JSONDecodeError :=
  fun _ => "invalid JSON".

Definition sample_thread_run (s : RunStatus) (a : option RequiredAction)
  (e : option RunError) : ThreadRun :=
  {| run_id := "run_1"; status := s; required_action := a; last_error := e |}.

Definition sample_messages (reply : list MessageContent)
  : list ThreadMessage :=
  [ {| message_id := "msg_1"; role := USER;
       content := [MessageTextContent "hi"] |};
    {| message_id := "msg_2"; role := AGENT; content := reply |} ].

Definition sample_turn (fetched : list (Reply ThreadRun))
  (reply : list MessageContent) : Turn :=
  {| created_message :=
       Ok {| message_id := "msg_1"; role := USER;
             content := [MessageTextContent "hi"] |};
     created_run := Ok (sample_thread_run QUEUED None None);
     fetched_runs := fetched;
     submitted := [Ok (sample_thread_run QUEUED None None)];
     listed_messages := Ok (sample_messages reply);
     listed_steps :=
       Ok [ {| step_details :=
                 Some (RunStepActivityDetails [ {| tools := ["search"] |} ])
            |} ] |}.

Definition sample_turn_of :=
  turn (show_status:=sample_show_status)
       (show_tool_call:=sample_show_tool_call)
       (show_error:=sample_show_error)
       "thread_1" (JString "asst_1") "hi".

Definition sample_fetched_completed : list (Reply ThreadRun) :=
  [Ok (sample_thread_run IN_PROGRESS None None);
   Ok (sample_thread_run REQUIRES_ACTION
         (Some (SubmitToolApprovalAction
                  [RequiredMcpToolCall "call_1" "search" "{}"])) None);
   Ok (sample_thread_run COMPLETED None None)].

Lemma polling_scenario_witness :
  sample_turn_of
    (sample_turn sample_fetched_completed
       [MessageTextContent "Looking."; MessageTextContent "Hello."])
  = (Done tt,
     [Remote (messages_create "thread_1" "user" "hi");
      Print "Created message: msg_1";
      Remote (runs_create "thread_1" (JString "asst_1"));
      Print "Run: run_1 (status: queued)";
      Sleep 1; Remote (runs_get "thread_1" "run_1");
      Print "  Status: in_progress";
      Sleep 1; Remote (runs_get "thread_1" "run_1");
      Print "Approving MCP tool call: call_1)";
      Remote (runs_submit_tool_outputs "thread_1" "run_1"
                [ {| tool_call_id := "call_1"; approve := true |} ]);
      Print "  Status: requires_action";
      Sleep 1; Remote (runs_get "thread_1" "run_1");
      Print "  Status: completed";
      Remote (messages_list "thread_1" ASCENDING);
      Print (NL +:+ "Assistant:" +:+ NL +:+ "Hello." +:+ NL);
      Remote (run_steps_list "thread_1" "run_1");
      Print "  (Tool used: search)"]).
Proof.
  exact (proj1 (polling_scenario
    (show_status:=sample_show_status)
    (show_tool_call:=sample_show_tool_call)
    (show_error:=sample_show_error)
    "thread_1" (JString "asst_1") "hi"
    {| message_id := "msg_1"; role := USER;
       content := [MessageTextContent "hi"] |}
    "run_1" None None "run_1" None None "run_1" None "call_1" "search" "{}"
    "run_1" None None (sample_thread_run QUEUED None None) [] []
    (sample_messages [MessageTextContent "Looking."; MessageTextContent "Hello."])
    [ {| step_details :=
           Some (RunStepActivityDetails [ {| tools := ["search"] |} ]) |} ]
    "Hello." eq_refl eq_refl)).
Defined.


Definition sample_failure : RunError :=
  {| code := "server_error"; message := "Sorry, something went wrong." |}.

Definition sample_fetched_failed : list (Reply ThreadRun) :=
  [Ok (sample_thread_run IN_PROGRESS None None);
   Ok (sample_thread_run FAILED None (Some sample_failure))].

Lemma failed_run_reports_error_witness :
  sample_turn_of (sample_turn sample_fetched_failed [MessageTextContent "Hello."])
  = (Done tt,
     [Remote (messages_create "thread_1" "user" "hi");
      Print "Created message: msg_1";
      Remote (runs_create "thread_1" (JString "asst_1"));
      Print "Run: run_1 (status: queued)";
      Sleep 1; Remote (runs_get "thread_1" "run_1");
      Print "  Status: in_progress";
      Sleep 1; Remote (runs_get "thread_1" "run_1");
      Print "  Status: failed";
      Print "Run failed: Sorry, something went wrong."]).
Proof.
  exact (proj1 (failed_run_reports_error
    (show_status:=sample_show_status)
    (show_tool_call:=sample_show_tool_call)
    (show_error:=sample_show_error)
    "thread_1" (JString "asst_1") "hi"
    (sample_turn sample_fetched_failed [MessageTextContent "Hello."])
    {| message_id := "msg_1"; role := USER;
       content := [MessageTextContent "hi"] |}
    (sample_thread_run QUEUED None None)
    (sample_thread_run FAILED None (Some sample_failure))
    [Sleep 1; Remote (runs_get "thread_1" "run_1");
     Print "  Status: in_progress";
     Sleep 1; Remote (runs_get "thread_1" "run_1");
     Print "  Status: failed"]
    eq_refl eq_refl eq_refl eq_refl)).
Defined.

Lemma reply_selection_witness :
  sample_turn_of
    (sample_turn sample_fetched_completed
       [MessageTextContent "Looking."; MessageTextContent "Hello."])
  = (Done tt,
     [Remote (messages_create "thread_1" "user" "hi");
      Print "Created message: msg_1";
      Remote (runs_create "thread_1" (JString "asst_1"));
      Print "Run: run_1 (status: queued)";
      Sleep 1; Remote (runs_get "thread_1" "run_1");
      Print "  Status: in_progress";
      Sleep 1; Remote (runs_get "thread_1" "run_1");
      Print "Approving MCP tool call: call_1)";
      Remote (runs_submit_tool_outputs "thread_1" "run_1"
                [ {| tool_call_id := "call_1"; approve := true |} ]);
      Print "  Status: requires_action";
      Sleep 1; Remote (runs_get "thread_1" "run_1");
      Print "  Status: completed";
      Remote (messages_list "thread_1" ASCENDING);
      Print (NL +:+ "Assistant:" +:+ NL +:+ "Hello." +:+ NL);
      Remote (run_steps_list "thread_1" "run_1");
      Print "  (Tool used: search)"]).
Proof.
  exact (proj1 (proj2 (reply_selection
    (show_status:=sample_show_status)
    (show_tool_call:=sample_show_tool_call)
    (show_error:=sample_show_error)
    "thread_1" (JString "asst_1") "hi"
    (sample_turn sample_fetched_completed
       [MessageTextContent "Looking."; MessageTextContent "Hello."])
    {| message_id := "msg_1"; role := USER;
       content := [MessageTextContent "hi"] |}
    (sample_thread_run QUEUED None None)
    (sample_thread_run COMPLETED None None)
    [Sleep 1; Remote (runs_get "thread_1" "run_1");
     Print "  Status: in_progress";
     Sleep 1; Remote (runs_get "thread_1" "run_1");
     Print "Approving MCP tool call: call_1)";
     Remote (runs_submit_tool_outputs "thread_1" "run_1"
               [ {| tool_call_id := "call_1"; approve := true |} ]);
     Print "  Status: requires_action";
     Sleep 1; Remote (runs_get "thread_1" "run_1");
     Print "  Status: completed"]
    (sample_messages [MessageTextContent "Looking."; MessageTextContent "Hello."])
    [ {| step_details :=
           Some (RunStepActivityDetails [ {| tools := ["search"] |} ]) |} ]
    eq_refl eq_refl eq_refl ltac:(discriminate) eq_refl eq_refl))).
Defined.

(** C6, as stated, fails: the run is completed, the message selected is the
    one of the agent and its last text segment is the empty text, and the
    turn prints no reply. *)
Lemma empty_reply_not_printed :
  (sample_turn_of
     (sample_turn sample_fetched_completed
        [MessageTextContent "Looking."; MessageTextContent EmptyString])).1
  = Done tt ∧
  (reply_text
     (sample_messages
        [MessageTextContent "Looking."; MessageTextContent EmptyString])
   = Some EmptyString) ∧
  ¬ In (Print (NL +:+ "Assistant:" +:+ NL +:+ EmptyString +:+ NL))
       (sample_turn_of
          (sample_turn sample_fetched_completed
             [MessageTextContent "Looking."; MessageTextContent EmptyString])).2.
Proof.
  split_and!; [reflexivity..|].
  vm_compute. intuition discriminate.
Qed.

Definition sample_repl :=
  repl (show_status:=sample_show_status)
       (show_tool_call:=sample_show_tool_call)
       (show_error:=sample_show_error)
       "thread_1" (JString "asst_1").

Lemma input_line_handling_witness :
  sample_repl [":Quit"; "hi"] [] = (Done tt, [Prompt "> "]).
Proof.
  apply (proj1 (proj2 (input_line_handling
    (show_status:=sample_show_status)
    (show_tool_call:=sample_show_tool_call)
    (show_error:=sample_show_error)
    (show_value:=sample_show_value)
    (show_decode_error:=sample_show_decode_error)
    "thread_1" (JString "asst_1")))).
  apply (bool_decide_unpack _). by vm_compute.
Defined.

Lemma input_line_stripped_witness :
  sample_repl [String "009" (":exit" +:+ String "160" " "); "hi"] []
  = (Done tt, [Prompt "> "]).
Proof.
  apply (proj1 (proj2 (input_line_stripped
    (show_status:=sample_show_status)
    (show_tool_call:=sample_show_tool_call)
    (show_error:=sample_show_error)
    "thread_1" (JString "asst_1")))
    (String "009" EmptyString) ":exit" (String "160" " ")).
  - reflexivity.
  - reflexivity.
  - apply (bool_decide_unpack _). by vm_compute.
Defined.

(** A line of white space, a message the service has no script for, the
    end of input. *)
Example sample_session :
  sample_repl [String "009" " "; "hi"] []
  = (Unscripted,
     [Prompt "> "; Prompt "> ";
      Remote (messages_create "thread_1" "user" "hi")]) ∧
  sample_repl [EmptyString] []
  = (Done tt, [Prompt "> "; Prompt "> "; Print EmptyString]).
Proof. split; reflexivity. Qed.

End RunAgentFacts.

(** ** Configuration and registry errors of both scripts *)

Module ConfigFacts.
Import PyStr Py Json Sdk Common CreateAgentFacts RunAgentFacts.






End ConfigFacts.

(** ** create-agent.py: configuration, failures, repeated runs *)

Module ProvisionFacts.
Import PyStr Py Json Sdk Common CreateAgent StrFacts JsonFacts RegistryFacts
  CreateAgentFacts.

Definition is_print (e : Event) : bool :=
  match e with Print _ => true | _ => false end.

(** A value of the command line or the environment: the flag when given,
    else the variable of the process, else that of the [.env] file, else the
    value built into the script. *)
Definition setting (flag : option string) (environ dotenv : gmap string string)
  (variable fallback : string) : string :=
  match flag with
  | Some s => s
  | None =>
      match environ !! variable with
      | Some s => s
      | None =>
          match dotenv !! variable with
          | Some s => s
          | None => fallback
          end
      end
  end.

Lemma load_dotenv_lookup dotenv environ k :
  load_dotenv dotenv environ !! k
  = match environ !! k with Some s => Some s | None => dotenv !! k end.
Proof.
  unfold load_dotenv. rewrite lookup_union.
  by destruct (environ !! k), (dotenv !! k).
Qed.

Section provisioner.
Context {repr : NumberRepr}.

(** All that [create] does is its one remote call, if it gets that far. *)
Lemma create_trace argv environ created :
  (create argv environ created).2 = [] ∨
  ∃ args model, (create argv environ created).2 = [creation args model].
Proof.
  unfold create, parse_args.
  destruct (opt_name argv) as [n|]; [|by left]. cbn.
  destruct (required (py_or _ _)) as [model|]; [|by left].
  destruct (required (environ !! _)) as [endpoint|]; [|by left].
  right. exists (namespace_of argv environ n), model. by destruct created.
Qed.

(** X1. A run of the provisioner that does not end well leaves the registry
    file as it found it, prints nothing, and has made one remote call at
    most. *)
Theorem failure_keeps_registry argv environ dotenv file created o tr file' :
  main argv environ dotenv file created = ((o, tr), file') →
  o ≠ Done tt →
  file' = file ∧ List.filter is_print tr = [] ∧
  (length (remote_calls tr) ≤ 1)%nat.
Proof.
  unfold main. intros Hm Ho.
  pose proof (create_trace argv (load_dotenv dotenv environ) created) as Htr.
  destruct (create argv _ created) as [[[args agent]|e|] tr0]; cbn in Htr.
  - destruct (setitem _ _ _); simplify_eq.
    destruct Htr as [->|(args' & model & ->)]; cbn; auto.
  - simplify_eq. destruct Htr as [->|(args' & model & ->)]; cbn; auto.
  - simplify_eq. destruct Htr as [->|(args' & model & ->)]; cbn; auto.
Qed.

(** X2. When the service refuses [create_agent], its error leaves the script
    uncaught after that one call: nothing is printed and the registry file
    is not touched. *)
Theorem service_failure_not_recorded argv environ dotenv file text
  n model endpoint :
  opt_name argv = Some n →
  required (py_or (opt_model argv)
              (load_dotenv dotenv environ !! "MODEL_DEPLOYMENT_NAME"))
    = Some model →
  required (load_dotenv dotenv environ !! "PROJECT_ENDPOINT") = Some endpoint →
  main argv environ dotenv file (Fails text)
  = ((Raised (RemoteError text),
      [creation (namespace_of argv (load_dotenv dotenv environ) n) model]),
     file).
Proof.
  intros Hn Hmodel Hend. unfold main, create, parse_args.
  rewrite Hn. cbn. by rewrite Hmodel, Hend.
Qed.

(** X3. The model of the agent: [--model] when it is given and not empty,
    else [MODEL_DEPLOYMENT_NAME] of the process environment when it is set
    there, else that of the [.env] file; and it is never empty. *)
Theorem model_precedence argv environ dotenv file created tr file' :
  main argv environ dotenv file created = ((Done tt, tr), file') →
  ∃ n tools model,
    remote_calls tr = [Remote (create_agent model n INSTRUCTIONS tools)] ∧
    model ≠ EmptyString ∧
    match opt_model argv with
    | Some (String c s) => model = String c s
    | _ =>
        match environ !! "MODEL_DEPLOYMENT_NAME" with
        | Some s => model = s
        | None => dotenv !! "MODEL_DEPLOYMENT_NAME" = Some model
        end
    end.
Proof.
  intros Hmain.
  apply main_done in Hmain
    as (n & model & endpoint & agent & store & Hn & Hmodel & _ & _ & _ & _ & ->).
  eexists n, _, model. split; [reflexivity|].
  rewrite load_dotenv_lookup in Hmodel.
  unfold required, py_or in Hmodel.
  destruct (opt_model argv) as [[|c s]|],
    (environ !! "MODEL_DEPLOYMENT_NAME") as [[|c' s']|],
    (dotenv !! "MODEL_DEPLOYMENT_NAME") as [[|c'' s'']|];
    cbn in Hmodel; by simplify_eq.
Qed.

(** X4. The one tool of the agent: its address and its label are each the
    flag when given (empty or not), else the variable of the process
    environment, else that of the [.env] file, else the built-in value; and
    the tool lists no allowed tools. *)
Theorem tool_server_precedence argv environ dotenv file created tr file' :
  main argv environ dotenv file created = ((Done tt, tr), file') →
  ∃ n model,
    remote_calls tr
    = [Remote
         (create_agent model n INSTRUCTIONS
            [ {| server_label :=
                   setting (opt_mcp_label argv) environ dotenv
                     "MCP_SERVER_LABEL" "github";
                 server_url :=
                   setting (opt_mcp_url argv) environ dotenv
                     "MCP_SERVER_URL"
                     "https://gitmcp.io/Azure/azure-rest-api-specs";
                 allowed_tools := [] |} ])].
Proof.
  intros Hmain.
  apply main_done in Hmain
    as (n & model & endpoint & agent & store & Hn & Hmodel & _ & _ & _ & _ & ->).
  exists n, model. cbn. unfold creation, definitions, setting. cbn.
  rewrite !load_dotenv_lookup.
  repeat f_equal.
  - destruct (opt_mcp_label argv); [done|].
    by destruct (environ !! "MCP_SERVER_LABEL"), (dotenv !! "MCP_SERVER_LABEL").
  - destruct (opt_mcp_url argv); [done|].
    by destruct (environ !! "MCP_SERVER_URL"), (dotenv !! "MCP_SERVER_URL").
Qed.


(** X6. A run that ends well prints two lines, after its remote call: the
    name with the identifier the service returned, and the name of the
    registry file, which it has written. *)
Theorem success_report argv environ dotenv file created tr file' :
  main argv environ dotenv file created = ((Done tt, tr), file') →
  ∃ n agent,
    opt_name argv = Some n ∧ created = Ok agent ∧
    is_Some file' ∧
    List.filter is_print tr
    = [Print ("Created agent '" +:+ n +:+ "' with ID: " +:+ id agent);
       Print "Stored mapping in .agents.json"] ∧
    ∃ call, tr = Remote call :: List.filter is_print tr.
Proof.
  intros Hmain.
  apply main_done in Hmain
    as (n & model & endpoint & agent & store & Hn & _ & _ & -> & _ & -> & ->).
  exists n, agent. split_and!; try done. by eexists.
Qed.




End provisioner.

(** *** Sample runs *)

Definition sample_provision (argv : Argv) (file : option string)
  (created : Reply Agent) : Action unit * option string :=
  main (repr:=fun lit => lit) argv sample_environ sample_dotenv file created.

Definition sample_refused : Action unit * option string :=
  sample_provision sample_argv sample_file (Fails "quota exceeded").

Definition api_argv : Argv :=
  {| opt_name := Some "api"; opt_model := Some EmptyString;
     opt_mcp_url := Some "https://mcp.example"; opt_mcp_label := None |}.

Lemma failure_keeps_registry_witness :
  sample_refused.2 = sample_file ∧
  List.filter is_print sample_refused.1.2 = [] ∧
  (length (remote_calls sample_refused.1.2) ≤ 1)%nat.
Proof.
  apply (failure_keeps_registry (repr:=fun lit => lit) sample_argv
           sample_environ sample_dotenv sample_file (Fails "quota exceeded")
           sample_refused.1.1).
  - vm_compute. reflexivity.
  - vm_compute. discriminate.
Defined.

Lemma service_failure_not_recorded_witness :
  sample_refused
  = ((Raised (RemoteError "quota exceeded"),
      [creation (namespace_of sample_argv
                   (load_dotenv sample_dotenv sample_environ) "cli")
         "gpt-4o"]),
     sample_file).
Proof.
  apply (service_failure_not_recorded (repr:=fun lit => lit) sample_argv
           sample_environ sample_dotenv sample_file "quota exceeded"
           "cli" "gpt-4o" "https://project.example");
    vm_compute; reflexivity.
Defined.

Definition api_run : Action unit * option string :=
  sample_provision api_argv sample_file (Ok {| id := "asst_7" |}).

Lemma model_precedence_witness :
  ∃ n tools model,
    remote_calls api_run.1.2
    = [Remote (create_agent model n INSTRUCTIONS tools)] ∧
    model ≠ EmptyString ∧
    match opt_model api_argv with
    | Some (String c s) => model = String c s
    | _ =>
        match sample_environ !! "MODEL_DEPLOYMENT_NAME" with
        | Some s => model = s
        | None => sample_dotenv !! "MODEL_DEPLOYMENT_NAME" = Some model
        end
    end.
Proof.
  apply (model_precedence (repr:=fun lit => lit) api_argv sample_environ
           sample_dotenv sample_file (Ok {| id := "asst_7" |})
           api_run.1.2 api_run.2).
  vm_compute. reflexivity.
Defined.

Lemma tool_server_precedence_witness :
  ∃ n model,
    remote_calls api_run.1.2
    = [Remote
         (create_agent model n INSTRUCTIONS
            [ {| server_label :=
                   setting (opt_mcp_label api_argv) sample_environ
                     sample_dotenv "MCP_SERVER_LABEL" "github";
                 server_url :=
                   setting (opt_mcp_url api_argv) sample_environ
                     sample_dotenv "MCP_SERVER_URL"
                     "https://gitmcp.io/Azure/azure-rest-api-specs";
                 allowed_tools := [] |} ])].
Proof.
  apply (tool_server_precedence (repr:=fun lit => lit) api_argv
           sample_environ sample_dotenv sample_file
           (Ok {| id := "asst_7" |}) api_run.1.2 api_run.2).
  vm_compute. reflexivity.
Defined.

(** The call of the sample run: the model of the [.env] file, as the flag is
    empty; the address of the flag; the built-in label. *)
Example api_run_call :
  remote_calls api_run.1.2
  = [Remote (create_agent "gpt-4o" "api" INSTRUCTIONS
               [ {| server_label := "github";
                    server_url := "https://mcp.example";
                    allowed_tools := [] |} ])].
Proof. vm_compute. reflexivity. Qed.

Lemma success_report_witness :
  ∃ n agent,
    opt_name api_argv = Some n ∧ Ok {| id := "asst_7" |} = Ok agent ∧
    is_Some api_run.2 ∧
    List.filter is_print api_run.1.2
    = [Print ("Created agent '" +:+ n +:+ "' with ID: " +:+ id agent);
       Print "Stored mapping in .agents.json"] ∧
    ∃ call, api_run.1.2 = Remote call :: List.filter is_print api_run.1.2.
Proof.
  apply (success_report (repr:=fun lit => lit) api_argv sample_environ
           sample_dotenv sample_file (Ok {| id := "asst_7" |})
           api_run.1.2 api_run.2).
  vm_compute. reflexivity.
Defined.






End ProvisionFacts.

(** ** run-agent.py: the session as a whole *)

Module SessionFacts.
Import PyStr Py Json Sdk Common RunAgent StrFacts JsonFacts StripFacts PyFacts
  RunAgentFacts.

Definition EXIT_LINE : string :=
  "Exiting. (Agent not deleted; reuse with another session.)".

Definition is_mcp (tool_call : RequiredToolCall) : bool :=
  match tool_call with
  | RequiredMcpToolCall _ _ _ => true
  | RequiredFunctionToolCall _ _ _ => false
  end.

Definition is_fetch (e : Event) : bool :=
  match e with Remote (runs_get _ _) => true | _ => false end.

(** The approvals the loop over [tool_calls] collects. *)
Definition approvals_of (tool_calls : list RequiredToolCall)
  : list ToolApproval :=
  omap (fun tool_call =>
          match tool_call with
          | RequiredMcpToolCall call_id _ _ =>
              Some {| tool_call_id := call_id; approve := true |}
          | RequiredFunctionToolCall _ _ _ => None
          end) tool_calls.

(** *** [strip] gives a text that [strip] leaves alone *)

Lemma rstrip_idem s : rstrip (rstrip s) = rstrip s.
Proof.
  induction s as [|c s IH]; [done|]. cbn [rstrip].
  destruct (rstrip s) as [|d r] eqn:Hr.
  - destruct (isspace c) eqn:Hc; [done|]. cbn. by rewrite Hc.
  - cbn [rstrip] in *. by rewrite IH.
Qed.

Lemma rstrip_head c s :
  isspace c = false → ∃ r, rstrip (String c s) = String c r.
Proof.
  intros Hc. cbn [rstrip]. destruct (rstrip s); [rewrite Hc|]; by eexists.
Qed.

Lemma lstrip_head s :
  lstrip s = EmptyString ∨
  ∃ c t, lstrip s = String c t ∧ isspace c = false.
Proof.
  induction s as [|c s IH]; [by left|]. cbn [lstrip].
  destruct (isspace c) eqn:Hc; [done|]. right. by exists c, s.
Qed.

Lemma strip_idem s : strip (strip s) = strip s.
Proof.
  unfold strip. destruct (lstrip_head s) as [->|(c & t & -> & Hc)]; [done|].
  destruct (rstrip_head c t Hc) as (r & Hr). rewrite Hr.
  cbn [lstrip]. rewrite Hc, <- Hr. apply rstrip_idem.
Qed.

Section session.
Context {show_status : Show RunStatus}
        {show_tool_call : Show RequiredToolCall}
        {show_error : Show RunError}
        {show_value : Show Value}
        {show_decode_error : Show JSONDecodeError}.

(** *** The events of the loop *)

(** What the loop of a session on thread [thread_id] with agent [agent_id]
    does, reading the lines [stdin]. *)
Inductive loop_event (thread_id : string) (agent_id : Value)
  (stdin : list string) : Event → Prop :=
| loop_prompt : loop_event thread_id agent_id stdin (Prompt "> ")
| loop_eof : loop_event thread_id agent_id stdin (Print EmptyString)
| loop_message line :
    line ∈ stdin → strip line ≠ EmptyString →
    lower (strip line) ∉ QUIT_COMMANDS →
    loop_event thread_id agent_id stdin
      (Remote (messages_create thread_id "user" (strip line)))
| loop_created text :
    loop_event thread_id agent_id stdin (Print ("Created message: " +:+ text))
| loop_run :
    loop_event thread_id agent_id stdin (Remote (runs_create thread_id agent_id))
| loop_run_line text :
    loop_event thread_id agent_id stdin (Print ("Run: " +:+ text))
| loop_sleep : loop_event thread_id agent_id stdin (Sleep 1)
| loop_fetch run :
    loop_event thread_id agent_id stdin (Remote (runs_get thread_id run))
| loop_approving text :
    loop_event thread_id agent_id stdin
      (Print ("Approving MCP tool call: " +:+ text))
| loop_submit run approvals :
    approvals ≠ [] → Forall (fun a => approve a = true) approvals →
    loop_event thread_id agent_id stdin
      (Remote (runs_submit_tool_outputs thread_id run approvals))
| loop_status text :
    loop_event thread_id agent_id stdin (Print ("  Status: " +:+ text))
| loop_failed text :
    loop_event thread_id agent_id stdin (Print ("Run failed: " +:+ text))
| loop_list :
    loop_event thread_id agent_id stdin
      (Remote (messages_list thread_id ASCENDING))
| loop_reply text :
    text ≠ EmptyString →
    loop_event thread_id agent_id stdin
      (Print (NL +:+ "Assistant:" +:+ NL +:+ text +:+ NL))
| loop_steps run :
    loop_event thread_id agent_id stdin
      (Remote (run_steps_list thread_id run))
| loop_tool fn_name :
    loop_event thread_id agent_id stdin
      (Print ("  (Tool used: " +:+ fn_name +:+ ")")).

Lemma loop_event_more thread_id agent_id line stdin e :
  loop_event thread_id agent_id stdin e →
  loop_event thread_id agent_id (line :: stdin) e.
Proof.
  destruct 1; try by constructor.
  apply loop_message; [by apply list_elem_of_further|done..].
Qed.

Lemma approvals_of_approve tool_calls :
  Forall (fun a => approve a = true) (approvals_of tool_calls).
Proof.
  induction tool_calls as [|[] rest IH]; cbn; [done| |done].
  by constructor.
Qed.

(** The loop over the tool calls never fails; it collects an approval for
    each call of a remote tool. *)
Lemma collect_approvals_done tool_calls : ∀ approvals,
  (collect_approvals tool_calls approvals).1
  = Done (approvals ++ approvals_of tool_calls).
Proof.
  induction tool_calls as [|tc rest IH]; intros approvals.
  - cbn. by rewrite app_nil_r.
  - destruct tc; cbn [collect_approvals]; [|apply IH].
    unfold print. rewrite bind_emit. cbn [after fst]. rewrite IH.
    by rewrite <- app_assoc.
Qed.

Lemma collect_approvals_loop thread_id agent_id stdin tool_calls :
  ∀ approvals,
  Forall (loop_event thread_id agent_id stdin)
         (collect_approvals tool_calls approvals).2.
Proof.
  induction tool_calls as [|tc rest IH]; intros approvals.
  - constructor.
  - destruct tc; cbn [collect_approvals]; [|apply IH].
    apply bind_trace; [|intros; apply IH].
    cbn. repeat constructor.
Qed.

Lemma handle_approvals_loop thread_id agent_id stdin run submitted :
  Forall (loop_event thread_id agent_id stdin)
         (handle_approvals thread_id run submitted).2.
Proof.
  unfold handle_approvals.
  destruct (status run); try by constructor.
  destruct (required_action run) as [[tool_calls|tool_calls]|];
    try by constructor.
  pose proof (collect_approvals_done tool_calls []) as Hd.
  pose proof (collect_approvals_loop thread_id agent_id stdin tool_calls [])
    as Hl.
  destruct (collect_approvals tool_calls []) as [o tr]. cbn in Hd, Hl.
  subst o. rewrite bind_done. cbn [after fst snd].
  apply Forall_app. split; [done|].
  destruct (approvals_of tool_calls) as [|a approvals] eqn:Ha; [constructor|].
  assert (loop_event thread_id agent_id stdin
            (Remote (runs_submit_tool_outputs thread_id (run_id run)
                       (a :: approvals)))) as Hs.
  { apply loop_submit; [done|]. rewrite <- Ha. apply approvals_of_approve. }
  destruct submitted as [|[r|text] rest]; cbn;
    (constructor; [exact Hs|constructor]).
Qed.

Lemma poll_loop thread_id agent_id stdin fetched : ∀ submitted run,
  Forall (loop_event thread_id agent_id stdin)
         (poll thread_id fetched submitted run).2.
Proof.
  induction fetched as [|reply fetched IH]; intros submitted run;
    cbn [poll]; destruct (polling (status run)); try by repeat constructor.
  apply bind_trace; [by repeat constructor|]. intros _.
  apply bind_trace; [destruct reply; by repeat constructor|]. intros run'.
  apply bind_trace; [apply handle_approvals_loop|]. intros submitted'.
  apply bind_trace; [by repeat constructor|]. intros _. apply IH.
Qed.

Lemma tool_notes_loop thread_id agent_id stdin run_steps :
  Forall (loop_event thread_id agent_id stdin) (tool_notes run_steps).
Proof.
  unfold tool_notes. apply Forall_forall. intros e He.
  apply list_elem_of_In in He.
  apply in_flat_map in He as (step & _ & He).
  destruct (step_details step) as [[| |activities]|]; try done.
  apply in_flat_map in He as (activity & _ & He).
  apply in_map_iff in He as (fn_name & <- & _). constructor.
Qed.

Lemma turn_loop thread_id agent_id stdin user_input t :
  loop_event thread_id agent_id stdin
    (Remote (messages_create thread_id "user" user_input)) →
  Forall (loop_event thread_id agent_id stdin)
         (turn thread_id agent_id user_input t).2.
Proof.
  intros Hmsg. unfold turn.
  apply bind_trace; [destruct (created_message t); by repeat constructor|].
  intros message.
  apply bind_trace; [by repeat constructor|]. intros _.
  apply bind_trace; [destruct (created_run t); by repeat constructor|].
  intros run0.
  apply bind_trace; [by repeat constructor|]. intros _.
  apply bind_trace; [apply poll_loop|]. intros run.
  destruct (bool_decide (status run = FAILED)); [by repeat constructor|].
  apply bind_trace; [destruct (listed_messages t); by repeat constructor|].
  intros messages.
  apply bind_trace.
  { destruct (last_assistant (reverse messages)) as [[|c text]|];
      by repeat constructor. }
  intros _.
  apply bind_trace; [destruct (listed_steps t); by repeat constructor|].
  intros run_steps. apply tool_notes_loop.
Qed.

(** The loop does nothing but the events above. *)
Lemma repl_loop thread_id agent_id stdin : ∀ turns,
  Forall (loop_event thread_id agent_id stdin)
         (repl thread_id agent_id stdin turns).2.
Proof.
  induction stdin as [|line stdin IH]; intros turns.
  - by repeat constructor.
  - assert (∀ turns', Forall (loop_event thread_id agent_id (line :: stdin))
                        (repl thread_id agent_id stdin turns').2) as IH'.
    { intros turns'. eapply Forall_impl; [apply IH|].
      intros e. apply loop_event_more. }
    cbn [repl]. apply bind_trace; [by repeat constructor|]. intros _.
    destruct (strip line) as [|c s] eqn:Hs; [apply IH'|]. cbn [truthy negb].
    destruct (bool_decide (_ ∈ QUIT_COMMANDS)) eqn:Hq; [constructor|].
    apply bool_decide_eq_false in Hq.
    assert (loop_event thread_id agent_id (line :: stdin)
              (Remote (messages_create thread_id "user" (String c s)))) as Hm.
    { rewrite <- Hs. apply loop_message.
      - apply list_elem_of_here.
      - by rewrite Hs.
      - by rewrite Hs. }
    destruct turns as [|t turns]; [by repeat constructor|].
    apply bind_trace; [by apply turn_loop|]. intros _. apply IH'.
Qed.

(** *** The script around the loop *)

(** The agent the registry [file] holds under the name on the command
    line. *)
Definition registry_entry (argv : Argv) (file : option string)
  (agent_id : Value) : Prop :=
  ∃ n text store,
    opt_name argv = Some n ∧ file = Some text ∧ loads text = Some store ∧
    getitem store n = Some agent_id.

(** The thread the service opened for the session. *)
Definition on_thread (w : World) (t : string) : Prop :=
  ∃ th, thread w = Ok th ∧ t = thread_id th.

(** How far [main] gets: it stops before its first event; or after
    [get_agent]; or after [threads.create]; or it runs the loop. *)
Lemma main_cases argv environ dotenv file w :
  (∃ e, main argv environ dotenv file w = (Raised e, [])) ∨
  ∃ agent_id, registry_entry argv file agent_id ∧
    ((∃ msg, main argv environ dotenv file w
             = (Raised (SystemExit msg), [Remote (get_agent agent_id)])) ∨
     (∃ text, main argv environ dotenv file w
              = (Raised (RemoteError text),
                 [Remote (get_agent agent_id); Remote threads_create])) ∨
     ∃ th, thread w = Ok th ∧
       main argv environ dotenv file w
       = after [Remote (get_agent agent_id); Remote threads_create;
                Print ("Session thread ID: " +:+ thread_id th);
                Print ("Type messages. Use :quit to exit." +:+ NL)]
           (repl (thread_id th) agent_id (stdin w) (turns w);;
            print EXIT_LINE)).
Proof.
  unfold main, parse_args, load_store.
  destruct (opt_name argv) as [n|] eqn:Hn; [|left; by eexists]. cbn.
  destruct file as [text|]; [|left; by eexists].
  destruct (loads text) as [store|] eqn:Hl; [|left; by eexists]. cbn.
  destruct (py_in n store) as [[]|]; [|left; by eexists..].
  destruct (getitem store n) as [agent_id|] eqn:Hg; [|left; by eexists].
  destruct (required _) as [endpoint|]; [|left; by eexists].
  right. exists agent_id. split; [by exists n, text, store|].
  destruct (agent w) as [a|text']; [|left; by eexists]. cbn.
  destruct (thread w) as [th|text']; [|right; left; by eexists]. cbn.
  right. right. exists th. split; [done|].
  by destruct (repl _ _ _ _) as [[[]| |] tr].
Qed.


(** What a session does: the start, the loop, the last line. *)
Inductive session_event (argv : Argv) (file : option string) (w : World)
  : Event → Prop :=
| session_agent agent_id :
    registry_entry argv file agent_id →
    session_event argv file w (Remote (get_agent agent_id))
| session_thread : session_event argv file w (Remote threads_create)
| session_thread_line text :
    session_event argv file w (Print ("Session thread ID: " +:+ text))
| session_help :
    session_event argv file w
      (Print ("Type messages. Use :quit to exit." +:+ NL))
| session_loop th agent_id e :
    thread w = Ok th → registry_entry argv file agent_id →
    loop_event (thread_id th) agent_id (stdin w) e →
    session_event argv file w e
| session_exit : session_event argv file w (Print EXIT_LINE).

Lemma after_bind_print {A} (events : list Event) (m : Action A) text :
  (after events (m;; print text)).2
  = events ++ m.2 ++ match m.1 with Done _ => [Print text] | _ => [] end.
Proof.
  destruct m as [[a| |] tr]; cbn; by rewrite ?app_nil_r.
Qed.

Lemma after_bind_print_outcome {A} (events : list Event) (m : Action A) text :
  (after events (m;; print text)).1
  = match m.1 with
    | Done _ => Done tt
    | Raised e => Raised e
    | Unscripted => Unscripted
    end.
Proof. by destruct m as [[a| |] tr]. Qed.

Lemma main_events argv environ dotenv file w :
  Forall (session_event argv file w) (main argv environ dotenv file w).2.
Proof.
  destruct (main_cases argv environ dotenv file w)
    as [(e & ->)|(agent_id & Hreg & [(msg & ->)|[(text & ->)|(th & Hth & ->)]])].
  - constructor.
  - repeat constructor. done.
  - repeat constructor. done.
  - rewrite after_bind_print. apply Forall_app. split.
    { repeat constructor. done. }
    apply Forall_app. split.
    + eapply Forall_impl; [apply repl_loop|].
      intros e. by apply session_loop.
    + destruct (repl _ _ _ _).1; repeat constructor.
Qed.

(** *** The approvals *)

Lemma collect_approvals_calls tool_calls : ∀ approvals,
  remote_calls (collect_approvals tool_calls approvals).2 = [].
Proof.
  induction tool_calls as [|tc rest IH]; intros approvals; [done|].
  destruct tc; cbn [collect_approvals]; [|apply IH].
  unfold print. rewrite bind_emit. cbn. apply IH.
Qed.

Lemma approvals_of_ids tool_calls :
  tool_call_id <$> approvals_of tool_calls
  = tool_call_id_of <$> List.filter is_mcp tool_calls.
Proof.
  induction tool_calls as [|[] rest IH]; cbn; [done| |done].
  by rewrite <- IH.
Qed.

(** X9. The approval handling after a fetch.  It calls the service when the
    run requires action, the action is a request for approvals, and one of
    its tool calls at least is a call of a remote tool: then once, with one
    approval for each such call, in their order, each one granting; the
    calls of the other kinds are passed over.  In every other case it calls
    nothing. *)
Theorem approval_batch thread_id run submitted :
  remote_calls (handle_approvals thread_id run submitted).2
  = match status run, required_action run with
    | REQUIRES_ACTION, Some (SubmitToolApprovalAction tool_calls) =>
        match approvals_of tool_calls with
        | [] => []
        | approvals =>
            [Remote (runs_submit_tool_outputs thread_id (run_id run)
                       approvals)]
        end
    | _, _ => []
    end ∧
  ∀ tool_calls,
    tool_call_id <$> approvals_of tool_calls
    = tool_call_id_of <$> List.filter is_mcp tool_calls ∧
    Forall (fun a => approve a = true) (approvals_of tool_calls).
Proof.
  split; [|intros; split; [apply approvals_of_ids|apply approvals_of_approve]].
  unfold handle_approvals.
  destruct (status run); try done.
  destruct (required_action run) as [[tool_calls|tool_calls]|]; try done.
  pose proof (collect_approvals_done tool_calls []) as Hd.
  pose proof (collect_approvals_calls tool_calls []) as Hc.
  destruct (collect_approvals tool_calls []) as [o tr]. cbn in Hd, Hc.
  subst o. rewrite bind_done. cbn [after fst snd].
  unfold remote_calls in *. rewrite List.filter_app, Hc. cbn [app].
  destruct (approvals_of tool_calls) as [|a approvals]; [done|].
  by destruct submitted as [|[r|text] rest].
Qed.

(** X10. In a whole session the runner never submits an empty batch, and no
    approval it submits is a rejection. *)
Theorem only_approvals_submitted argv environ dotenv file w :
  Forall (fun e => ∀ t r approvals,
            e = Remote (runs_submit_tool_outputs t r approvals) →
            approvals ≠ [] ∧ Forall (fun a => approve a = true) approvals)
         (main argv environ dotenv file w).2.
Proof.
  eapply Forall_impl; [apply main_events|].
  intros e He t r approvals ->.
  inversion He as [| | | |th agent_id e' Hth Hreg Hl|]; subst.
  by inversion Hl; subst.
Qed.

(** *** The calls of a session *)

(** X11. Every remote call of the runner: it never creates an agent; the
    agent it retrieves, and the one every run is created with, is the entry
    of the registry under the name on the command line; every message,
    run, fetch, submission and listing is on the one thread the service
    opened for the session; the messages are sent in the role of the user
    and listed in ascending order. *)
Theorem session_targets argv environ dotenv file w :
  Forall (fun e => ∀ c, e = Remote c →
            match c with
            | create_agent _ _ _ _ => False
            | get_agent agent_id => registry_entry argv file agent_id
            | threads_create => True
            | messages_create t role _ => on_thread w t ∧ role = "user"
            | runs_create t agent_id =>
                on_thread w t ∧ registry_entry argv file agent_id
            | runs_get t _ => on_thread w t
            | runs_submit_tool_outputs t _ _ => on_thread w t
            | messages_list t order => on_thread w t ∧ order = ASCENDING
            | run_steps_list t _ => on_thread w t
            end)
         (main argv environ dotenv file w).2.
Proof.
  eapply Forall_impl; [apply main_events|].
  intros e He c ->.
  inversion He as [a Hreg| | | |th agent_id e' Hth Hreg Hl|]; subst; try done.
  assert (on_thread w (thread_id th)) by by exists th.
  by inversion Hl; subst.
Qed.

(** X12. Every message the runner sends is a line of the input, stripped;
    it is not empty, has no white space at either end, and is none of the
    commands that end the loop. *)
Theorem messages_are_stripped_lines argv environ dotenv file w :
  Forall (fun e => ∀ t role text,
            e = Remote (messages_create t role text) →
            ∃ line, line ∈ stdin w ∧ text = strip line ∧
                    strip text = text ∧ text ≠ EmptyString ∧
                    lower text ∉ QUIT_COMMANDS)
         (main argv environ dotenv file w).2.
Proof.
  eapply Forall_impl; [apply main_events|].
  intros e He t role text ->.
  inversion He as [| | | |th agent_id e' Hth Hreg Hl|]; subst.
  inversion Hl; subst. exists line. split_and!; try done.
  apply strip_idem.
Qed.

(** *** The last line *)

Lemma loop_event_not_exit thread_id agent_id stdin e :
  loop_event thread_id agent_id stdin e → e ≠ Print EXIT_LINE.
Proof. by destruct 1. Qed.

(** X13. The line that the agent is kept is printed when and only when the
    script ends normally, as its last event. *)
Theorem exit_line_marks_normal_end argv environ dotenv file w :
  ∃ tr,
    (Print EXIT_LINE ∉ tr) ∧
    (main argv environ dotenv file w).2
    = tr ++ match (main argv environ dotenv file w).1 with
            | Done _ => [Print EXIT_LINE]
            | _ => []
            end.
Proof.
  destruct (main_cases argv environ dotenv file w)
    as [(e & ->)|(agent_id & Hreg & [(msg & ->)|[(text & ->)|(th & Hth & ->)]])].
  - exists []. split; [apply not_elem_of_nil|done].
  - exists [Remote (get_agent agent_id)]. split; [|done].
    rewrite !not_elem_of_cons. split_and!; [done|apply not_elem_of_nil].
  - exists [Remote (get_agent agent_id); Remote threads_create].
    split; [|done].
    rewrite !not_elem_of_cons. split_and!; [done..|apply not_elem_of_nil].
  - rewrite after_bind_print, after_bind_print_outcome.
    exists ([Remote (get_agent agent_id); Remote threads_create;
             Print ("Session thread ID: " +:+ thread_id th);
             Print ("Type messages. Use :quit to exit." +:+ NL)]
            ++ (repl (thread_id th) agent_id (stdin w) (turns w)).2).
    split.
    + rewrite not_elem_of_app, !not_elem_of_cons. split_and!; try done.
      * apply not_elem_of_nil.
      * intros Hin.
        pose proof (repl_loop (thread_id th) agent_id (stdin w) (turns w))
          as Hl.
        rewrite Forall_forall in Hl.
        by apply (loop_event_not_exit _ _ _ _ (Hl _ Hin)).
    + rewrite <- app_assoc. f_equal. f_equal.
      by destruct (repl _ _ _ _).1.
Qed.

(** *** The pace of the polling *)

Lemma paced_app l1 l2 : paced l1 → paced l2 → paced (l1 ++ l2).
Proof.
  induction 1; cbn; intros; [done|apply paced_fetch; auto|].
  apply paced_quiet; auto.
Qed.

Lemma bind_paced {A B} (m : Action (Event:=Event) A) (k : A → Action B) :
  paced m.2 → (∀ a, paced (k a).2) → paced (m ≫= k).2.
Proof.
  intros Hm Hk. destruct m as [[a| |] tr1]; cbn in *; [|done..].
  specialize (Hk a). destruct (k a) as [o' tr2]. cbn in *.
  by apply paced_app.
Qed.

Lemma remote_paced {A} (c : Call) (reply : Reply A) :
  quiet (Remote c) → paced (remote c reply).2.
Proof. intros Hq. destruct reply; cbn; by repeat constructor. Qed.

Lemma print_paced text : paced (print text).2.
Proof. by repeat constructor. Qed.

Lemma tool_notes_paced run_steps : paced (tool_notes run_steps).
Proof.
  rewrite <- (app_nil_r (tool_notes _)).
  apply paced_app_quiet; [|constructor].
  unfold tool_notes. apply Forall_forall. intros e He.
  apply list_elem_of_In in He.
  apply in_flat_map in He as (step & _ & He).
  destruct (step_details step) as [[| |activities]|]; try done.
  apply in_flat_map in He as (activity & _ & He).
  by apply in_map_iff in He as (fn_name & <- & _).
Qed.

Lemma turn_paced thread_id agent_id user_input t :
  paced (turn thread_id agent_id user_input t).2.
Proof.
  unfold turn.
  apply bind_paced; [by apply remote_paced|]. intros message.
  apply bind_paced; [apply print_paced|]. intros _.
  apply bind_paced; [by apply remote_paced|]. intros run0.
  apply bind_paced; [apply print_paced|]. intros _.
  apply bind_paced; [apply poll_paced|]. intros run.
  destruct (bool_decide (status run = FAILED)); [apply print_paced|].
  apply bind_paced; [by apply remote_paced|]. intros messages.
  apply bind_paced.
  { destruct (last_assistant (reverse messages)) as [[|c text]|];
      by repeat constructor. }
  intros _.
  apply bind_paced; [by apply remote_paced|]. intros run_steps.
  apply tool_notes_paced.
Qed.

Lemma repl_paced thread_id agent_id stdin : ∀ turns,
  paced (repl thread_id agent_id stdin turns).2.
Proof.
  induction stdin as [|line stdin IH]; intros turns.
  - by repeat constructor.
  - cbn [repl]. apply bind_paced; [by repeat constructor|]. intros _.
    destruct (strip line) as [|c s]; [apply IH|]. cbn [truthy negb].
    destruct (bool_decide (_ ∈ QUIT_COMMANDS)); [constructor|].
    destruct turns as [|t turns]; [by repeat constructor|].
    apply bind_paced; [apply turn_paced|]. intros _. apply IH.
Qed.

(** X14. In a whole session, whatever the service answers, the runner
    sleeps one second right before each fetch of a run, and at no other
    time; and it never fetches a run without that pause. *)
Theorem session_is_paced argv environ dotenv file w :
  paced (main argv environ dotenv file w).2.
Proof.
  destruct (main_cases argv environ dotenv file w)
    as [(e & ->)|(agent_id & Hreg & [(msg & ->)|[(text & ->)|(th & Hth & ->)]])].
  - constructor.
  - by repeat constructor.
  - by repeat constructor.
  - rewrite after_bind_print.
    apply (paced_app_quiet [_; _; _; _]); [by repeat constructor|].
    apply paced_app; [apply repl_paced|].
    destruct (repl _ _ _ _).1; by repeat constructor.
Qed.

Lemma quiet_no_fetch l : Forall quiet l → List.filter is_fetch l = [].
Proof.
  induction 1 as [|e l He _ IH]; [done|]. cbn [List.filter].
  destruct e as [| | |[]]; try done.
Qed.

(** X15. When the polling loop returns, it returns the first run whose
    status is none of queued, in progress and requires action: the run it
    was given, without a fetch, or else the first such run the service
    answers, after one fetch for it and one for each run before it; what
    the service would have answered later is not asked for. *)
Theorem poll_returns_first_terminal thread_id fetched :
  ∀ submitted run0 run tr,
  poll thread_id fetched submitted run0 = (Done run, tr) →
  polling (status run) = false ∧
  if polling (status run0)
  then ∃ before rest,
         fetched = (Ok <$> before) ++ Ok run :: rest ∧
         Forall (fun r => polling (status r) = true) before ∧
         length (List.filter is_fetch tr) = S (length before)
  else run = run0 ∧ tr = [].
Proof.
  induction fetched as [|reply fetched IH]; intros submitted run0 run tr;
    cbn [poll]; destruct (polling (status run0)) eqn:Hp; try done.
  - intros [= <- <-]. by rewrite Hp.
  - intros (_ & tr1 & tr2 & [= <-] & H2 & ->)%bind_outcome.
    apply bind_outcome in H2 as (r1 & tr3 & tr4 & H3 & H4 & ->).
    apply bind_outcome in H4 as (s1 & tr5 & tr6 & H5 & H6 & ->).
    apply bind_outcome in H6 as (_ & tr7 & tr8 & [= <-] & H8 & ->).
    destruct reply as [r|text]; [|done]. injection H3 as -> <-.
    pose proof (handle_approvals_quiet thread_id r1 submitted) as Hq.
    rewrite H5 in Hq. cbn in Hq. apply quiet_no_fetch in Hq.
    apply IH in H8 as [Hrun H8]. split; [done|].
    destruct (polling (status r1)) eqn:Hp1.
    + destruct H8 as (before & rest & -> & Hbefore & Hlen).
      exists (r1 :: before), rest. split_and!; [done|by constructor|].
      subst tr1 tr7. cbn. rewrite List.filter_app, Hq. cbn. by rewrite Hlen.
    + destruct H8 as [-> ->]. exists [], fetched. split_and!; [done..|].
      subst tr1 tr7. cbn. by rewrite List.filter_app, Hq.
  - intros [= <- <-]. by rewrite Hp.
Qed.

(** *** How a session ends badly *)

(** An exception that is an error of the service, raised by the call the
    trace ends with. *)
Definition service_abort {A} (m : Action (Event:=Event) A) : Prop :=
  ∀ e tr, m = (Raised e, tr) →
    ∃ text c, e = RemoteError text ∧ last tr = Some (Remote c).

Lemma bind_abort {A B} (m : Action (Event:=Event) A) (k : A → Action B) :
  service_abort m → (∀ a, service_abort (k a)) → service_abort (m ≫= k).
Proof.
  intros Hm Hk e tr. destruct m as [[a| |] tr1]; cbn.
  - destruct (k a) as [o tr2] eqn:Hka. intros [= -> <-].
    destruct (Hk a e tr2 Hka) as (text & c & -> & Hlast).
    exists text, c. split; [done|]. by rewrite last_app, Hlast.
  - intros [= -> <-]. by apply Hm.
  - done.
Qed.

Lemma remote_abort {A} (c : Call) (reply : Reply A) :
  service_abort (remote c reply).
Proof.
  intros e tr. destruct reply as [a|text]; cbn; [done|].
  intros [= <- <-]. by exists text, c.
Qed.

Lemma done_abort {A} (a : A) (tr : list Event) : service_abort (Done a, tr).
Proof. by intros e tr'. Qed.

Lemma handle_approvals_abort thread_id run submitted :
  service_abort (handle_approvals thread_id run submitted).
Proof.
  unfold handle_approvals.
  destruct (status run); try apply done_abort.
  destruct (required_action run) as [[tool_calls|tool_calls]|];
    try apply done_abort.
  apply bind_abort.
  { intros e tr He.
    pose proof (collect_approvals_done tool_calls []) as Hd.
    by rewrite He in Hd. }
  intros [|a approvals]; [apply done_abort|].
  apply bind_abort; [|intros [r rest]; apply done_abort].
  destruct submitted as [|reply rest]; [done|]. cbn [remote_next].
  apply bind_abort; [apply remote_abort|]. intros r. apply done_abort.
Qed.

Lemma poll_abort thread_id fetched : ∀ submitted run,
  service_abort (poll thread_id fetched submitted run).
Proof.
  induction fetched as [|reply fetched IH]; intros submitted run;
    cbn [poll]; destruct (polling (status run)); try done;
    try apply done_abort.
  apply bind_abort; [apply done_abort|]. intros _.
  apply bind_abort; [apply remote_abort|]. intros run'.
  apply bind_abort; [apply handle_approvals_abort|]. intros submitted'.
  apply bind_abort; [apply done_abort|]. intros _. apply IH.
Qed.

Lemma turn_abort thread_id agent_id user_input t :
  service_abort (turn thread_id agent_id user_input t).
Proof.
  unfold turn.
  apply bind_abort; [apply remote_abort|]. intros message.
  apply bind_abort; [apply done_abort|]. intros _.
  apply bind_abort; [apply remote_abort|]. intros run0.
  apply bind_abort; [apply done_abort|]. intros _.
  apply bind_abort; [apply poll_abort|]. intros run.
  destruct (bool_decide (status run = FAILED)); [apply done_abort|].
  apply bind_abort; [apply remote_abort|]. intros messages.
  apply bind_abort.
  { destruct (last_assistant (reverse messages)) as [[|c text]|];
      apply done_abort. }
  intros _.
  apply bind_abort; [apply remote_abort|]. intros run_steps.
  apply done_abort.
Qed.

Lemma repl_abort thread_id agent_id stdin : ∀ turns,
  service_abort (repl thread_id agent_id stdin turns).
Proof.
  induction stdin as [|line stdin IH]; intros turns.
  - done.
  - cbn [repl]. apply bind_abort; [apply done_abort|]. intros _.
    destruct (strip line) as [|c s]; [apply IH|]. cbn [truthy negb].
    destruct (bool_decide (_ ∈ QUIT_COMMANDS)); [apply done_abort|].
    destruct turns as [|t turns]; [done|].
    apply bind_abort; [apply turn_abort|]. intros _. apply IH.
Qed.

(** X16. The exceptions that end the runner.  Before its first call: an
    exit for what is missing, or a [TypeError] on a registry that is no
    object.  After [get_agent] alone: an exit that reports the failure to
    retrieve the agent.  From then on: nothing but an error of the service,
    which no handler catches, raised by the remote call the trace ends
    with. *)
Theorem session_errors argv environ dotenv file w e tr :
  main argv environ dotenv file w = (Raised e, tr) →
  (tr = [] ∧ ∀ text, e ≠ RemoteError text) ∨
  (∃ msg agent_id,
     e = SystemExit msg ∧ tr = [Remote (get_agent agent_id)]) ∨
  (∃ text c, e = RemoteError text ∧ last tr = Some (Remote c) ∧
             Remote threads_create ∈ tr).
Proof.
  intros Hmain.
  destruct (main_cases argv environ dotenv file w)
    as [(e' & H)|(agent_id & Hreg & [(msg & H)|[(text & H)|(th & Hth & H)]])];
    rewrite H in Hmain.
  - injection Hmain as <- <-. left. split; [done|].
    intros text ->. revert H. unfold main, parse_args, load_store.
    destruct (opt_name argv) as [n|]; [|done]. cbn.
    destruct file as [text'|]; [|done].
    destruct (loads text') as [store|]; [|done]. cbn.
    destruct (py_in n store) as [[]|]; [|done..].
    destruct (getitem store n) as [a|]; [|done].
    destruct (required _) as [endpoint|]; [|done].
    destruct (agent w) as [a'|text'']; [|done]. cbn.
    destruct (thread w) as [th|text'']; [|done]. cbn.
    by destruct (repl _ _ _ _) as [[[]| |] tr'].
  - injection Hmain as <- <-. right. left. by exists msg, agent_id.
  - injection Hmain as <- <-. right. right. exists text, threads_create.
    split_and!; [done..|]. apply list_elem_of_further, list_elem_of_here.
  - right. right.
    pose proof (repl_abort (thread_id th) agent_id (stdin w) (turns w)) as Ha.
    destruct (repl _ _ _ _) as [[[]|e'|] tr'] eqn:Hrepl; cbn in Hmain;
      [done| |done].
    injection Hmain as <- <-.
    destruct (Ha e' tr' eq_refl) as (text & c & -> & Hlast).
    exists text, c. split_and!; [done| |].
    + by rewrite !last_cons, Hlast.
    + apply list_elem_of_further, list_elem_of_here.
Qed.

(** X17. A failure to retrieve the agent ends the runner with an exit that
    names the agent, its identifier and the error, after that one call: no
    thread is opened and no line is read.  A failure to open the thread is
    not caught. *)
Theorem retrieval_failure_is_fatal argv environ dotenv text w n store
  agent_id endpoint reason :
  opt_name argv = Some n → loads text = Some store →
  py_in n store = Some true → getitem store n = Some agent_id →
  required (load_dotenv dotenv environ !! "PROJECT_ENDPOINT") = Some endpoint →
  (agent w = Fails reason →
   main argv environ dotenv (Some text) w
   = (Raised (SystemExit ("Failed to retrieve agent '" +:+ n +:+ "' (id="
                          +:+ format_value agent_id +:+ "): " +:+ reason)),
      [Remote (get_agent agent_id)])) ∧
  (∀ a, agent w = Ok a → thread w = Fails reason →
   main argv environ dotenv (Some text) w
   = (Raised (RemoteError reason),
      [Remote (get_agent agent_id); Remote threads_create])).
Proof.
  intros Hn Hl Hin Hget Hend. unfold main, parse_args, load_store.
  rewrite Hn, Hl. cbn. rewrite Hin, Hget, Hend. split.
  - by intros ->.
  - by intros a -> ->.
Qed.


(** *** Lines that say nothing *)

Definition is_prompt (e : Event) : bool :=
  match e with Prompt _ => true | _ => false end.

(** A trace without its prompts. *)
Definition unprompted (tr : list Event) : list Event :=
  List.filter (fun e => negb (is_prompt e)) tr.

(** A line that is more than white space. *)
Definition spoken (line : string) : bool := truthy (strip line).

Lemma bind_unprompted {A B} (m : Action (Event:=Event) A)
  (k1 k2 : A → Action B) :
  (∀ a, (k1 a).1 = (k2 a).1 ∧ unprompted (k1 a).2 = unprompted (k2 a).2) →
  (m ≫= k1).1 = (m ≫= k2).1 ∧
  unprompted (m ≫= k1).2 = unprompted (m ≫= k2).2.
Proof.
  intros Hk. destruct m as [[a| |] tr]; cbn; [|done..].
  destruct (Hk a) as [H1 H2].
  destruct (k1 a) as [o1 tr1], (k2 a) as [o2 tr2]. cbn in *.
  unfold unprompted in *. by rewrite !List.filter_app, H1, H2.
Qed.

(** X19. The lines of the input that are empty or white space only change
    nothing but the number of prompts: without them the session ends the
    same way after the same calls and the same printed lines. *)
Theorem blank_lines_only_prompt thread_id agent_id stdin : ∀ turns,
  (repl thread_id agent_id (List.filter spoken stdin) turns).1
  = (repl thread_id agent_id stdin turns).1 ∧
  unprompted (repl thread_id agent_id (List.filter spoken stdin) turns).2
  = unprompted (repl thread_id agent_id stdin turns).2.
Proof.
  induction stdin as [|line stdin IH]; intros turns; [done|].
  cbn [List.filter]. destruct (spoken line) eqn:Hsp; unfold spoken in Hsp.
  - destruct (strip line) as [|c s] eqn:Hs; [done|].
    cbn [repl]. rewrite Hs. cbn [truthy negb].
    apply bind_unprompted. intros _.
    destruct (bool_decide (_ ∈ QUIT_COMMANDS)); [done|].
    destruct turns as [|t turns]; [done|].
    apply bind_unprompted. intros _. apply IH.
  - destruct (strip line) as [|c s] eqn:Hs; [|done].
    rewrite (repl_blank _ _ line stdin) by done. apply IH.
Qed.

(** X20. What follows a command that ends the loop is never read: the
    session is the same whatever lines come after the command, wherever the
    command is in the input. *)
Theorem input_after_quit_is_not_read thread_id agent_id before command rest :
  lower (strip command) ∈ QUIT_COMMANDS →
  ∀ turns,
    repl thread_id agent_id (before ++ command :: rest) turns
    = repl thread_id agent_id (before ++ [command]) turns.
Proof.
  intros Hq. induction before as [|line before IH]; intros turns.
  - cbn [app]. by rewrite !repl_quit.
  - rewrite <- !app_comm_cons. cbn [repl].
    destruct (negb (truthy (strip line))); [by rewrite IH|].
    destruct (bool_decide (_ ∈ QUIT_COMMANDS)); [done|].
    destruct turns as [|t turns]; [done|]. by rewrite IH.
Qed.

End session.

(** *** Sample sessions *)

Definition sample_poll : Action ThreadRun :=
  poll (show_status:=sample_show_status)
       (show_tool_call:=sample_show_tool_call)
       "thread_1" (sample_fetched_completed ++ [Fails "not asked for"])
       [Ok (sample_thread_run QUEUED None None)]
       (sample_thread_run QUEUED None None).

Lemma poll_returns_first_terminal_witness :
  polling (status (sample_thread_run COMPLETED None None)) = false ∧
  ∃ before rest,
    sample_fetched_completed ++ [Fails "not asked for"]
    = (Ok <$> before) ++ Ok (sample_thread_run COMPLETED None None) :: rest ∧
    Forall (fun r => polling (status r) = true) before ∧
    length (List.filter is_fetch sample_poll.2) = S (length before).
Proof.
  apply (poll_returns_first_terminal
           (show_status:=sample_show_status)
           (show_tool_call:=sample_show_tool_call)
           "thread_1" (sample_fetched_completed ++ [Fails "not asked for"])
           [Ok (sample_thread_run QUEUED None None)]
           (sample_thread_run QUEUED None None)
           (sample_thread_run COMPLETED None None) sample_poll.2).
  vm_compute. reflexivity.
Defined.

Definition sample_registry : string :=
  dumps (repr:=fun lit => lit) RegistryFacts.sample_store.

Definition sample_main (file : string) (w : World) : Action unit :=
  main (show_status:=sample_show_status)
    (show_tool_call:=sample_show_tool_call)
    (show_error:=sample_show_error)
    (show_value:=sample_show_value)
    (show_decode_error:=sample_show_decode_error)
    {| opt_name := Some "cli" |}
    {[ "PROJECT_ENDPOINT" := "https://project.example" ]} ∅ (Some file) w.

(** The service refuses the message of the first turn. *)
Definition throttled_world : World :=
  {| stdin := ["hi"; ":quit"];
     agent := Ok {| id := "asst_1" |};
     thread := Ok {| thread_id := "thread_1" |};
     turns := [ {| created_message := Fails "throttled";
                   created_run := Fails "throttled";
                   fetched_runs := [];
                   submitted := [];
                   listed_messages := Fails "throttled";
                   listed_steps := Fails "throttled" |} ] |}.

Lemma session_errors_witness :
  ((sample_main sample_registry throttled_world).2 = [] ∧
   ∀ text, RemoteError "throttled" ≠ RemoteError text) ∨
  (∃ msg agent_id,
     RemoteError "throttled" = SystemExit msg ∧
     (sample_main sample_registry throttled_world).2
     = [Remote (get_agent agent_id)]) ∨
  (∃ text c,
     RemoteError "throttled" = RemoteError text ∧
     last (sample_main sample_registry throttled_world).2 = Some (Remote c) ∧
     Remote threads_create ∈ (sample_main sample_registry throttled_world).2).
Proof.
  apply (session_errors
           (show_status:=sample_show_status)
           (show_tool_call:=sample_show_tool_call)
           (show_error:=sample_show_error)
           (show_value:=sample_show_value)
           (show_decode_error:=sample_show_decode_error)
           {| opt_name := Some "cli" |}
           {[ "PROJECT_ENDPOINT" := "https://project.example" ]} ∅
           (Some sample_registry) throttled_world).
  vm_compute. reflexivity.
Defined.

(** The service does not know the agent of the registry. *)
Definition unknown_agent_world : World :=
  {| stdin := ["hi"];
     agent := Fails "no such agent";
     thread := Ok {| thread_id := "thread_1" |};
     turns := [] |}.

Lemma retrieval_failure_is_fatal_witness :
  sample_main sample_registry unknown_agent_world
  = (Raised (SystemExit
               "Failed to retrieve agent 'cli' (id=asst_1): no such agent"),
     [Remote (get_agent (JString "asst_1"))]).
Proof.
  apply (proj1 (retrieval_failure_is_fatal
           (show_status:=sample_show_status)
           (show_tool_call:=sample_show_tool_call)
           (show_error:=sample_show_error)
           (show_value:=sample_show_value)
           (show_decode_error:=sample_show_decode_error)
           {| opt_name := Some "cli" |}
           {[ "PROJECT_ENDPOINT" := "https://project.example" ]} ∅
           sample_registry unknown_agent_world "cli"
           (JDict [("cli", JString "asst_1"); ("web", JString "asst_2")])
           (JString "asst_1") "https://project.example" "no such agent"
           eq_refl ltac:(vm_compute; reflexivity) eq_refl eq_refl eq_refl)).
  reflexivity.
Defined.


(** A registry that is a list holding the name: the lookup fails. *)
Example list_registry :
  sample_main ("[" +:+ String dquote "cli" +:+ String dquote "]")
    unknown_agent_world = (Raised TypeError, []).
Proof. vm_compute. reflexivity. Qed.

Lemma input_after_quit_is_not_read_witness :
  sample_repl [" "; ":Q"; "hi"; "there"] [] = sample_repl [" "; ":Q"] [].
Proof.
  apply (input_after_quit_is_not_read
           (show_status:=sample_show_status)
           (show_tool_call:=sample_show_tool_call)
           (show_error:=sample_show_error)
           "thread_1" (JString "asst_1") [" "] ":Q" ["hi"; "there"]).
  apply (bool_decide_unpack _). by vm_compute.
Defined.

End SessionFacts.

(** ** The text of the registry file *)

Module RegistryTextFacts.
Import PyStr Py Json Common StrFacts JsonFacts RegistryFacts.










(** The line feeds of a text. *)
Fixpoint line_feeds (s : string) : nat :=
  match s with
  | EmptyString => 0
  | String c s' =>
      ((if (ord c =? 10)%N then 1 else 0) + line_feeds s')%nat
  end.

Lemma line_feeds_app a b :
  line_feeds (a +:+ b) = (line_feeds a + line_feeds b)%nat.
Proof.
  induction a as [|c a IH]; [done|].
  rewrite str_app_cons. cbn [line_feeds]. rewrite IH. lia.
Qed.

Lemma line_feeds_escape_char c : line_feeds (escape_char c) = 0%nat.
Proof. destruct c as [[] [] [] [] [] [] [] []]; by vm_compute. Qed.

Lemma line_feeds_escape s : line_feeds (escape s) = 0%nat.
Proof.
  induction s as [|c s IH]; [done|]. cbn [escape].
  by rewrite line_feeds_app, line_feeds_escape_char, IH.
Qed.

Lemma line_feeds_entry_line kv : line_feeds (entry_line kv) = 0%nat.
Proof.
  unfold entry_line, encode_string.
  rewrite !line_feeds_app. cbn [line_feeds].
  rewrite !line_feeds_escape. by vm_compute.
Qed.

Lemma line_feeds_join sep p parts :
  Forall (fun q => line_feeds q = 0%nat) (p :: parts) →
  line_feeds (join sep (p :: parts)) = (length parts * line_feeds sep)%nat.
Proof.
  revert p. induction parts as [|q parts IH]; intros p Hall.
  - cbn. by inversion Hall.
  - inversion Hall as [|? ? Hp Hrest]; subst.
    change (join sep (p :: q :: parts))
      with (p +:+ sep +:+ join sep (q :: parts)).
    rewrite !line_feeds_app, IH, Hp by done. cbn [length]. lia.
Qed.

Lemma line_feeds_registry_text m :
  line_feeds (registry_text m)
  = if decide (m = ∅) then 0%nat else S (size m).
Proof.
  unfold registry_text.
  pose proof (sorted_items_perm (map_to_list m)) as Hperm.
  destruct (sorted_items (map_to_list m)) as [|kv entries] eqn:Hs.
  - symmetry in Hperm. apply Permutation_nil_r in Hperm.
    apply map_to_list_empty_iff in Hperm. by rewrite decide_True.
  - rewrite decide_False.
    2:{ intros ->. rewrite map_to_list_empty in Hperm.
        symmetry in Hperm. by apply Permutation_nil_cons in Hperm. }
    apply Permutation_length in Hperm.
    rewrite length_map_to_list in Hperm. rewrite <- Hperm.
    rewrite !line_feeds_app. cbn [fmap list_fmap].
    rewrite line_feeds_join.
    2:{ change (entry_line kv :: (entry_line <$> entries))
          with (entry_line <$> kv :: entries).
        apply Forall_fmap, Forall_forall.
        intros kv' _. apply line_feeds_entry_line. }
    rewrite length_fmap, !line_feeds_app.
    repeat match goal with
    | |- context [line_feeds ?s] =>
        let n := eval vm_compute in (line_feeds s) in
        progress change (line_feeds s) with n
    end.
    cbn [length]. lia.
Qed.



Section text.
Context {repr : NumberRepr}.



(** X23. The registry file has one line for each entry between the line
    of the opening brace and that of the closing one, whatever characters
    the names and the identifiers hold; an empty registry is written on one
    line. *)
Theorem registry_one_entry_a_line store m text :
  unique_keys store → as_store store = Some m →
  CreateAgent.save_store store = Some text →
  line_feeds text = if decide (m = ∅) then 0%nat else S (size m).
Proof.
  intros Hu Hm. unfold CreateAgent.save_store. intros [= <-].
  rewrite (dumps_registry_text store m Hu Hm). apply line_feeds_registry_text.
Qed.

End text.



Definition two_line_name : list (string * string) :=
  [("a" +:+ NL +:+ "b", "asst_1"); ("c", "asst_2")].

Lemma registry_one_entry_a_line_witness :
  line_feeds (dumps (repr:=fun lit => lit) (dict_of two_line_name))
  = if decide (list_to_map (M:=gmap string string) two_line_name = ∅)
    then 0%nat else S (size (list_to_map (M:=gmap string string) two_line_name)).
Proof.
  apply (registry_one_entry_a_line (repr:=fun lit => lit)
           (dict_of two_line_name) (list_to_map two_line_name)).
  - apply unique_keys_dict_of. apply (bool_decide_unpack _). by vm_compute.
  - apply as_store_dict_of.
  - reflexivity.
Defined.

(** A name of two lines is written on one. *)
Example two_line_name_lines :
  line_feeds (dumps (repr:=fun lit => lit) (dict_of two_line_name)) = 3%nat.
Proof. by vm_compute. Qed.

End RegistryTextFacts.

(** ** The two scripts together *)

Module WorkflowFacts.
Import PyStr Py Json Sdk Common StrFacts JsonFacts RegistryFacts
  CreateAgentFacts RunAgentFacts ProvisionFacts SessionFacts RegistryTextFacts.

Section workflow.
Context {repr : NumberRepr}
        {show_status : Show RunStatus}
        {show_tool_call : Show RequiredToolCall}
        {show_error : Show RunError}
        {show_value : Show Value}
        {show_decode_error : Show JSONDecodeError}.


(** X25. Without [--name] either script exits at once: before any remote
    call, and the provisioner without touching the registry. *)
Theorem missing_name_is_fatal argv environ dotenv file created
  argv' environ' dotenv' file' w :
  CreateAgent.opt_name argv = None → RunAgent.opt_name argv' = None →
  (∃ msg, CreateAgent.main argv environ dotenv file created
          = ((Raised (SystemExit msg), []), file)) ∧
  (∃ msg, RunAgent.main argv' environ' dotenv' file' w
          = (Raised (SystemExit msg), [])).
Proof.
  intros Hn Hn'. split.
  - unfold CreateAgent.main, CreateAgent.create, CreateAgent.parse_args.
    rewrite Hn. by eexists.
  - unfold RunAgent.main, RunAgent.parse_args. rewrite Hn'. by eexists.
Qed.

End workflow.


Lemma missing_name_is_fatal_witness :
  (∃ msg, CreateAgent.main (repr:=fun lit => lit)
            {| CreateAgent.opt_name := None;
               CreateAgent.opt_model := Some "gpt-4o";
               CreateAgent.opt_mcp_url := None;
               CreateAgent.opt_mcp_label := None |}
            sample_environ sample_dotenv sample_file
            (Ok {| id := "asst_9" |})
          = ((Raised (SystemExit msg), []), sample_file)) ∧
  (∃ msg, RunAgent.main (show_status:=sample_show_status)
            (show_tool_call:=sample_show_tool_call)
            (show_error:=sample_show_error)
            (show_value:=sample_show_value)
            (show_decode_error:=sample_show_decode_error)
            {| RunAgent.opt_name := None |} sample_environ sample_dotenv
            sample_file throttled_world
          = (Raised (SystemExit msg), [])).
Proof.
  apply (missing_name_is_fatal (repr:=fun lit => lit)
           (show_status:=sample_show_status)
           (show_tool_call:=sample_show_tool_call)
           (show_error:=sample_show_error)
           (show_value:=sample_show_value)
           (show_decode_error:=sample_show_decode_error));
    reflexivity.
Defined.

End WorkflowFacts.
